(** * Rx schema validation (python/Rx.py): a shallow embedding

    The development follows the layout of [Rx.py]: the Python data the
    module manipulates, [Util.make_range_check], the [Factory] with its two
    registries, the fourteen core types with their [check] methods and
    constructors, and [make_schema]; then the vocabulary of the properties,
    and the properties themselves.

    Python semantics assumed: Python 3 ([str] is text, ordering comparisons
    between unrelated types raise [TypeError], dictionaries iterate in
    insertion order). *)

From Stdlib Require Import ZArith QArith Qround String Ascii List Bool Lia.
From stdpp Require Import base option list gmap strings.

Set Warnings "-register-all".

Close Scope Q_scope.
Local Open Scope string_scope.
Local Open Scope list_scope.

(** ** Exceptions and outcomes

    A Python call returns a value or raises.  [Timeout] is the third outcome
    of the fuel-indexed [make_schema] below; nothing else produces it. *)

Inductive exn : Type :=
| SchemaError | ValueError | KeyError | TypeError | AttributeError | IndexError.

Inductive outcome (A : Type) : Type :=
| Return (a : A)
| Raise (e : exn)
| Timeout.
Arguments Return {A} a.
Arguments Raise {A} e.
Arguments Timeout {A}.

Definition bind {A B} (c : outcome A) (k : A -> outcome B) : outcome B :=
  match c with
  | Return a => k a
  | Raise e => Raise e
  | Timeout => Timeout
  end.

Notation "x <- c ;; k" := (bind c (fun x => k))
  (at level 100, c at next level, right associativity).
Notation "c ;;; k" := (bind c (fun _ => k))
  (at level 100, right associativity).

(** [a and b] on booleans: [b] is evaluated only when [a] is true. *)
Definition and_then (a b : outcome bool) : outcome bool :=
  x <- a ;; if x then b else Return false.
Infix "&&&" := and_then (at level 40, left associativity).

(** [a or b] on booleans. *)
Definition or_else (a b : outcome bool) : outcome bool :=
  x <- a ;; if x then Return true else b.

(** [if not c: raise e] *)
Definition require (c : bool) (e : exn) : outcome unit :=
  if c then Return tt else Raise e.

(** [all(f(x) for x in l)] and [any(f(x) for x in l)]: both stop at the
    first element that decides the answer. *)
Fixpoint py_all {A} (f : A -> outcome bool) (l : list A) : outcome bool :=
  match l with
  | [] => Return true
  | x :: l' => b <- f x ;; if b then py_all f l' else Return false
  end.

Fixpoint py_any {A} (f : A -> outcome bool) (l : list A) : outcome bool :=
  match l with
  | [] => Return false
  | x :: l' => b <- f x ;; if b then Return true else py_any f l'
  end.

(** [[f(x) for x in l]] *)
Fixpoint py_map {A B} (f : A -> outcome B) (l : list A) : outcome (list B) :=
  match l with
  | [] => Return []
  | x :: l' => y <- f x ;; ys <- py_map f l' ;; Return (y :: ys)
  end.

(** ** Python values *)

(** A [float] is a finite rational, an infinity or a NaN.  Every finite
    binary64 number is a rational; the model admits all of them, and the
    arithmetic used by [Rx.py] on floats (ordering, equality, [% 1 == 0])
    is exact on rationals. *)
Inductive pyfloat : Type :=
| FFin (q : Q)
| FInf (negative : bool)
| FNan.

(** The numbers of the built-in classes: [bool] (a subclass of [int]),
    [int], [float] and [complex].  [numbers.Number], which [Rx.py] tests
    for, is an open abstract class: [decimal.Decimal], [fractions.Fraction]
    and whatever an application registers are instances too, and [%], the
    comparisons and [==] are then their own methods.  Such instances are not
    part of this model: a statement about every number, or every value, is
    about data of the built-in classes. *)
Inductive number : Type :=
| NBool (b : bool)
| NInt (z : Z)
| NFloat (f : pyfloat)
| NComplex (re im : pyfloat).

(** Data as decoded from JSON or YAML, plus tuples and complex numbers,
    which [Rx.py] tests for.  Dictionaries are association lists in insertion order
    with string keys. *)
Inductive value : Type :=
| VNone
| VNum (n : number)
| VStr (s : string)
| VList (l : list value)
| VTuple (l : list value)
| VDict (d : list (string * value)).

Definition VBool (b : bool) : value := VNum (NBool b).
Definition VInt (z : Z) : value := VNum (NInt z).
Definition VFloat (q : Q) : value := VNum (NFloat (FFin q)).

Definition inf : pyfloat := FInf false.
Definition neg_inf : pyfloat := FInf true.

(** *** Dictionaries *)

Section Dict.
Context {V : Type}.

(** [d.get(k)] *)
Fixpoint dict_get (d : list (string * V)) (k : string) : option V :=
  match d with
  | [] => None
  | (k', v) :: d' => if String.eqb k' k then Some v else dict_get d' k
  end.

(** [k in d] *)
Definition dict_in (k : string) (d : list (string * V)) : bool :=
  match dict_get d k with Some _ => true | None => false end.

(** [d[k]] *)
Definition dict_item (d : list (string * V)) (k : string) : outcome V :=
  match dict_get d k with Some v => Return v | None => Raise KeyError end.

(** [d.keys()] *)
Definition dict_keys (d : list (string * V)) : list string := map fst d.

(** [d.values()] *)
Definition dict_values (d : list (string * V)) : list V := map snd d.

(** [d[k] = v]: an existing key keeps its position. *)
Fixpoint dict_set (d : list (string * V)) (k : string) (v : V)
  : list (string * V) :=
  match d with
  | [] => [(k, v)]
  | (k', v') :: d' =>
      if String.eqb k' k then (k', v) :: d' else (k', v') :: dict_set d' k v
  end.
End Dict.

(** [set(names).issuperset(d)] for a dictionary [d]. *)
Definition keys_within {V} (names : list string) (d : list (string * V)) : bool :=
  forallb (fun k => existsb (String.eqb k) names) (dict_keys d).

(** *** Numbers *)

Definition to_real (n : number) : option pyfloat :=
  match n with
  | NBool b => Some (FFin (if b then 1 else 0))
  | NInt z => Some (FFin (inject_Z z))
  | NFloat f => Some f
  | NComplex _ _ => None
  end.

Definition to_complex (n : number) : pyfloat * pyfloat :=
  match n with
  | NComplex re im => (re, im)
  | NBool b => (FFin (if b then 1 else 0), FFin 0)
  | NInt z => (FFin (inject_Z z), FFin 0)
  | NFloat f => (f, FFin 0)
  end.

(** [a <= b], [a < b], [a >= b], [a > b] and [a == b] on floats; every
    comparison with a NaN is false. *)
Definition float_le (a b : pyfloat) : bool :=
  match a, b with
  | FNan, _ | _, FNan => false
  | FInf true, _ => true
  | _, FInf false => true
  | FInf false, _ => false
  | _, FInf true => false
  | FFin p, FFin q => Qle_bool p q
  end.

Definition float_lt (a b : pyfloat) : bool :=
  match a, b with
  | FNan, _ | _, FNan => false
  | FInf true, FInf true => false
  | FInf true, _ => true
  | FInf false, _ => false
  | FFin _, FInf neg => negb neg
  | FFin p, FFin q => negb (Qle_bool q p)
  end.

Definition float_ge (a b : pyfloat) : bool :=
  match a, b with
  | FNan, _ | _, FNan => false
  | _, FInf true => true
  | FInf false, _ => true
  | _, FInf false => false
  | FInf true, _ => false
  | FFin p, FFin q => Qle_bool q p
  end.

Definition float_gt (a b : pyfloat) : bool :=
  match a, b with
  | FNan, _ | _, FNan => false
  | FInf false, FInf false => false
  | FInf false, _ => true
  | FInf true, _ => false
  | FFin _, FInf neg => neg
  | FFin p, FFin q => negb (Qle_bool p q)
  end.

Definition float_eq (a b : pyfloat) : bool :=
  match a, b with
  | FFin p, FFin q => Qeq_bool p q
  | FInf s, FInf t => Bool.eqb s t
  | _, _ => false
  end.

(** Ordering comparisons of numbers: [complex] has none. *)
Definition num_cmp (op : pyfloat -> pyfloat -> bool) (a b : number)
  : outcome bool :=
  match to_real a, to_real b with
  | Some x, Some y => Return (op x y)
  | _, _ => Raise TypeError
  end.

Definition num_le := num_cmp float_le.
Definition num_lt := num_cmp float_lt.
Definition num_ge := num_cmp float_ge.
Definition num_gt := num_cmp float_gt.

(** [a == b] on numbers never raises. *)
Definition num_eq (a b : number) : bool :=
  let '(ar, ai) := to_complex a in
  let '(br, bi) := to_complex b in
  float_eq ar br && float_eq ai bi.

(** [n % 1].  On a finite float the remainder is exact before the final
    rounding, and rounding never turns a non-zero remainder into zero. *)
Definition mod_one (n : number) : outcome number :=
  match n with
  | NBool _ => Return (NInt 0)
  | NInt z => Return (NInt (z mod 1))
  | NFloat (FFin q) => Return (NFloat (FFin (Qminus q (inject_Z (Qfloor q)))))
  | NFloat _ => Return (NFloat FNan)
  | NComplex _ _ => Raise TypeError
  end.

(** *** Truth values, iteration, hashing *)

Definition py_truthy (v : value) : bool :=
  match v with
  | VNone => false
  | VNum n => negb (num_eq n (NInt 0))
  | VStr s => negb (String.eqb s "")
  | VList l | VTuple l => match l with [] => false | _ => true end
  | VDict d => match d with [] => false | _ => true end
  end.

(** The characters of a string, each as a one-character string. *)
Fixpoint chars (s : string) : list value :=
  match s with
  | EmptyString => []
  | String c s' => VStr (String c EmptyString) :: chars s'
  end.

(** [for x in v] *)
Definition py_iter (v : value) : outcome (list value) :=
  match v with
  | VList l | VTuple l => Return l
  | VStr s => Return (chars s)
  | VDict d => Return (map VStr (dict_keys d))
  | VNone | VNum _ => Raise TypeError
  end.

Fixpoint hashable (v : value) : bool :=
  match v with
  | VNone | VNum _ | VStr _ => true
  | VTuple l => forallb hashable l
  | VList _ | VDict _ => false
  end.

(** [len(v)] for the sized values. *)
Definition py_len (v : value) : outcome number :=
  match v with
  | VStr s => Return (NInt (Z.of_nat (String.length s)))
  | VList l | VTuple l => Return (NInt (Z.of_nat (length l)))
  | VDict d => Return (NInt (Z.of_nat (length d)))
  | VNone | VNum _ => Raise TypeError
  end.

(** ** Utility functions *)

Module Util.

(** The newline character. *)
Definition newline : ascii := ascii_of_N 10.

(** [text.split(nl)] for the newline [nl]: the pieces between the newlines,
    one more than there are newlines. *)
Fixpoint split (text : string) : list string :=
  match text with
  | EmptyString => [EmptyString]
  | String c rest =>
      if Ascii.eqb c newline then EmptyString :: split rest
      else
        match split rest with
        | line :: lines => String c line :: lines
        | [] => [String c EmptyString]
        end
  end.

(** [nl.join(lines)] *)
Fixpoint join (lines : list string) : string :=
  match lines with
  | [] => EmptyString
  | [line] => line
  | line :: lines' => line +:+ String newline (join lines')
  end.

(** [whitespace * level]: empty when [level] is not positive. *)
Definition times (whitespace : string) (level : Z) : string :=
  Nat.iter (Z.to_nat level) (String.append whitespace) EmptyString.

(** [indent(text, level=1, whitespace='  ')] *)
Definition indent (text : string) (level : Z) (whitespace : string) : string :=
  join (map (fun line => times whitespace level +:+ line) (split text)).

(** The closure [check_range] keeps [r], the copy of the argument. *)
Record range_check : Type := RangeCheck { r : value }.

(** [r.get(k, default)]: only dictionaries (of the values that have a
    [copy] method) have [get]. *)
Definition r_get (rc : range_check) (k : string) (default : value)
  : outcome value :=
  match r rc with
  | VDict d => Return (match dict_get d k with Some v => v | None => default end)
  | _ => Raise AttributeError
  end.

(** [bound op value] where [value] is a number: a bound that is not a
    number, or a complex operand, has no ordering. *)
Definition compare (op : number -> number -> outcome bool)
    (bound : value) (x : number) : outcome bool :=
  match bound with
  | VNum b => op b x
  | _ => Raise TypeError
  end.

Definition check_range (rc : range_check) (value : number) : outcome bool :=
  (b <- r_get rc "min" (VNum (NFloat neg_inf)) ;; compare num_le b value) &&&
  (b <- r_get rc "max" (VNum (NFloat inf)) ;; compare num_ge b value) &&&
  (b <- r_get rc "min-ex" (VNum (NFloat neg_inf)) ;; compare num_lt b value) &&&
  (b <- r_get rc "max-ex" (VNum (NFloat inf)) ;; compare num_gt b value).

(** Membership of a hashable value in a set of strings. *)
Definition in_names (names : list string) (v : value) : bool :=
  match v with
  | VStr s => existsb (String.eqb s) names
  | _ => false
  end.

(** The loop of [issuperset] over the elements of its argument: each one is
    hashed and looked up in turn, and the first that is missing ends the
    loop, so that an unhashable element raises only when every element
    before it is a member. *)
Fixpoint contains_all (names : list string) (elems : list value)
  : outcome bool :=
  match elems with
  | [] => Return true
  | e :: rest =>
      require (hashable e) TypeError ;;;
      if in_names names e then contains_all names rest else Return false
  end.

(** [set(names).issuperset(opt)]: [opt] must be iterable; it is not turned
    into a set. *)
Definition issuperset (names : list string) (opt : value) : outcome bool :=
  elems <- py_iter opt ;;
  contains_all names elems.

(** [set(names).issubset(opt)]: [opt] is turned into a set first, so it
    must be iterable with hashable elements. *)
Definition issubset (names : list string) (opt : value) : outcome bool :=
  elems <- py_iter opt ;;
  require (forallb hashable elems) TypeError ;;;
  Return (forallb (fun n => existsb (fun e => in_names [n] e) elems) names).

(** [opt.copy()]: dictionaries and lists have it. *)
Definition copy (opt : value) : outcome value :=
  match opt with
  | VDict _ | VList _ => Return opt
  | _ => Raise AttributeError
  end.

Definition make_range_check (opt : value) : outcome range_check :=
  ok <- issuperset ["min"; "max"; "min-ex"; "max-ex"] opt ;;
  require ok ValueError ;;;
  both_min <- issubset ["min"; "min-ex"] opt ;;
  require (negb both_min) ValueError ;;;
  both_max <- issubset ["max"; "max-ex"] opt ;;
  require (negb both_max) ValueError ;;;
  r <- copy opt ;;
  Return (RangeCheck r).

End Util.

(** ** The schema factory *)

(** The fourteen core type classes, as the values a registry holds. *)
Inductive kind : Type :=
| KAll | KAny | KArr | KBool | KDef | KFail | KInt
| KMap | KNil | KNum | KOne | KRec | KSeq | KStr.

(** An entry of the type registry: a type class, or the dictionary
    [{'schema': schema}] of a learned type. *)
Inductive type_entry : Type :=
| TypeClass (k : kind)
| Learned (schema : value).

(** The two registries.  Prefix names, URI bases and URIs are strings. *)
Record Factory : Type := {
  prefix_registry : gmap string string;
  type_registry : gmap string type_entry;
}.

Definition subname (k : kind) : string :=
  match k with
  | KAll => "all" | KAny => "any" | KArr => "arr" | KBool => "bool"
  | KDef => "def" | KFail => "fail" | KInt => "int" | KMap => "map"
  | KNil => "nil" | KNum => "num" | KOne => "one" | KRec => "rec"
  | KSeq => "seq" | KStr => "str"
  end.

Definition core_base : string := "tag:codesimply.com,2008:rx/core/".
Definition meta_base : string := "tag:codesimply.com,2008:rx/meta/".

(** [_CoreType.uri] *)
Definition uri (k : kind) : string := core_base +:+ subname k.

Definition core_types : list kind :=
  [KAll; KAny; KArr; KBool; KDef; KFail; KInt; KMap; KNil; KNum;
   KOne; KRec; KSeq; KStr].

(** *** Type names *)

Definition code (c : ascii) : N := N_of_ascii c.
Definition between (lo hi : N) (c : ascii) : bool :=
  (lo <=? code c)%N && (code c <=? hi)%N.

(** [\w] on text: letters, digits and the underscore.  Characters are code
    points below 256; beyond ASCII the alphanumeric ones are listed as
    Python's [re] classifies them. *)
Definition is_word (c : ascii) : bool :=
  between 48 57 c || between 65 90 c || between 97 122 c || (code c =? 95)%N
  || (code c =? 170)%N || (code c =? 178)%N || (code c =? 179)%N
  || (code c =? 181)%N || (code c =? 185)%N || (code c =? 186)%N
  || between 188 190 c || between 192 214 c || between 216 246 c
  || between 248 255 c.

(** [[-._a-z0-9]] *)
Definition is_name (c : ascii) : bool :=
  (code c =? 45)%N || (code c =? 46)%N || (code c =? 95)%N
  || between 97 122 c || between 48 57 c.

(** The longest prefix of [s] whose characters satisfy [p], and the rest. *)
Fixpoint span (p : ascii -> bool) (s : string) : string * string :=
  match s with
  | EmptyString => (EmptyString, EmptyString)
  | String c s' =>
      if p c then let '(a, b) := span p s' in (String c a, b)
      else (EmptyString, s)
  end.

(** [re.match('^\w+:', s)] *)
Definition match_scheme (s : string) : bool :=
  match span is_word s with
  | (String _ _, String ":" _) => true
  | _ => false
  end.

(** [$] matches at the end of the text and before a final newline. *)
Definition at_end (s : string) : bool :=
  match s with
  | EmptyString => true
  | String c EmptyString => (code c =? 10)%N
  | _ => false
  end.

(** The second [re.match] of [expand_uri], with its groups: a slash, a
    possibly empty run of name characters (the prefix), a slash, a non-empty
    run (the suffix), the end.  A slash is not a name character, so the
    split is unique. *)
Definition match_shorthand (s : string) : option (string * string) :=
  match s with
  | String "/" s1 =>
      match span is_name s1 with
      | (prefix, String "/" s2) =>
          match span is_name s2 with
          | (String c suffix, rest) =>
              if at_end rest then Some (prefix, String c suffix) else None
          | _ => None
          end
      | _ => None
      end
  | _ => None
  end.

Definition expand_uri (self : Factory) (type_name : value) : outcome string :=
  match type_name with
  | VStr type_name =>
      if match_scheme type_name then Return type_name
      else
        match match_shorthand type_name with
        | None => Raise ValueError
        | Some (prefix, suffix) =>
            match prefix_registry self !! prefix with
            | None =>
                (* the message of the KeyError mixes '{0}' and '{}', and
                   [str.format] raises ValueError on it *)
                Raise ValueError
            | Some base => Return (base +:+ suffix)
            end
        end
  | _ => Raise TypeError (* re.match on a non-string *)
  end.

(** *** Registration *)

(** [prefix_registry.get(name)] is tested for truth: an empty base counts
    as absent. *)
Definition add_prefix (self : Factory) (name base : string)
  : Factory * outcome unit :=
  match prefix_registry self !! name with
  | Some b =>
      if negb (String.eqb b "") then (self, Raise SchemaError)
      else ({| prefix_registry := <[name := base]> (prefix_registry self);
               type_registry := type_registry self |}, Return tt)
  | None =>
      ({| prefix_registry := <[name := base]> (prefix_registry self);
          type_registry := type_registry self |}, Return tt)
  end.

Definition register_type (self : Factory) (t : kind) : Factory * outcome unit :=
  let t_uri := uri t in
  match type_registry self !! t_uri with
  | Some _ => (self, Raise ValueError)
  | None =>
      ({| prefix_registry := prefix_registry self;
          type_registry := <[t_uri := TypeClass t]> (type_registry self) |},
       Return tt)
  end.

(** [Factory.__init__] *)
Definition Factory_init (register_core_types : bool) : Factory * outcome unit :=
  let self :=
    {| prefix_registry := <["" := core_base]> (<[".meta" := meta_base]> ∅);
       type_registry := ∅ |} in
  if register_core_types then
    fold_left
      (fun st t =>
         match st with
         | (self, Return _) => register_type self t
         | _ => st
         end)
      core_types (self, Return tt)
  else (self, Return tt).

(** [Factory()] *)
Definition new_Factory : Factory := fst (Factory_init true).

(** ** Core schema types *)

Import Util.

(** A compiled schema: one constructor per core type class, carrying the
    attributes its [__init__] sets.  An attribute that is [None] or a value
    is an option; the attribute [value] has the type the constructor checks
    for (a number for [int] and [num], a string for [str]).
    ([MapType.allowed] is set and never read; it is left out.) *)
Inductive validator : Type :=
| AllType (alts : list validator)
| AnyType (alts : option (list validator))
| ArrType (content_schema : validator) (length : option range_check)
| BoolType
| DefType
| FailType
| IntType (value : option number) (range : option range_check)
| MapType (value_schema : validator)
| NilType
| NumType (value : option number) (range : option range_check)
| OneType
| RecType (known : gset string) (rest_schema : option validator)
    (required optional : list (string * validator))
| SeqType (content_schema : list validator) (tail_schema : option validator)
| StrType (value : option string) (length : option range_check).

(** *** The [check] methods

    Each method is written over the bound [check] methods of the
    sub-schemas it holds. *)

Definition checker : Type := value -> outcome bool.

(** [l[i]] *)
Definition index {A} (l : list A) (i : nat) : outcome A :=
  match l !! i with Some x => Return x | None => Raise IndexError end.

(** [f is None or f(x)] and [not f or f(x)] for a range check [f]. *)
Definition none_or_range (f : option range_check) (x : number) : outcome bool :=
  match f with None => Return true | Some f => check_range f x end.

Definition is_bool (n : number) : bool :=
  match n with NBool _ => true | _ => false end.

Definition AllType_check (alts : list checker) (value : value) : outcome bool :=
  py_all (fun schema => schema value) alts.

Definition AnyType_check (alts : option (list checker)) (value : value)
  : outcome bool :=
  match alts with
  | None => Return true
  | Some alts => py_any (fun schema => schema value) alts
  end.

Definition ArrType_check (content_schema : checker)
    (length : option range_check) (value : value) : outcome bool :=
  match value with
  | VList items | VTuple items =>
      none_or_range length (NInt (Z.of_nat (List.length items))) &&&
      py_all content_schema items
  | _ => Return false
  end.

Definition BoolType_check (value : value) : outcome bool :=
  Return (match value with VNum (NBool _) => true | _ => false end).

Definition DefType_check (value : value) : outcome bool :=
  Return (match value with VNone => false | _ => true end).

Definition FailType_check (value : value) : outcome bool := Return false.

Definition IntType_check (self_value : option number)
    (range : option range_check) (value : value) : outcome bool :=
  match value with
  | VNum n =>
      Return (negb (is_bool n)) &&&
      (m <- mod_one n ;; Return (num_eq m (NInt 0))) &&&
      none_or_range range n &&&
      Return (match self_value with None => true | Some v => num_eq n v end)
  | _ => Return false
  end.

Definition MapType_check (value_schema : checker) (value : value)
  : outcome bool :=
  match value with
  | VDict d => py_all value_schema (dict_values d)
  | _ => Return false
  end.

Definition NilType_check (value : value) : outcome bool :=
  Return (match value with VNone => true | _ => false end).

Definition NumType_check (self_value : option number)
    (range : option range_check) (value : value) : outcome bool :=
  match value with
  | VNum n =>
      Return (negb (is_bool n)) &&&
      none_or_range range n &&&
      Return (match self_value with None => true | Some v => num_eq n v end)
  | _ => Return false
  end.

Definition OneType_check (value : value) : outcome bool :=
  Return (match value with VNum _ | VStr _ => true | _ => false end).

(** [{key: value[key] for key in unknown}] *)
Fixpoint restrict (d : list (string * value)) (unknown : list string)
    (rest : list (string * value)) : outcome (list (string * value)) :=
  match unknown with
  | [] => Return rest
  | key :: unknown' =>
      x <- dict_item d key ;; restrict d unknown' (dict_set rest key x)
  end.

Definition RecType_check (known : gset string) (rest_schema : option checker)
    (required optional : list (string * checker)) (value : value)
  : outcome bool :=
  match value with
  | VDict d =>
      let unknown := filter (fun k => k ∉ known) (dict_keys d) in
      if (match unknown with [] => false | _ => true end)
         && (match rest_schema with None => true | Some _ => false end)
      then Return false
      else
        req <- py_all
                 (fun field =>
                    if negb (dict_in field d) then Return false
                    else s <- dict_item required field ;;
                         x <- dict_item d field ;; s x)
                 (dict_keys required) ;;
        if negb req then Return false
        else
          opt <- py_all
                   (fun field =>
                      if negb (dict_in field d) then Return true
                      else s <- dict_item optional field ;;
                           x <- dict_item d field ;; s x)
                   (dict_keys optional) ;;
          if negb opt then Return false
          else
            match unknown with
            | [] => Return true
            | _ =>
                rest <- restrict d unknown [] ;;
                match rest_schema with
                | None => Raise AttributeError
                | Some s => ok <- s (VDict rest) ;;
                            if negb ok then Return false else Return true
                end
            end
  | _ => Return false
  end.

(** [value[n:]] keeps the type of the sequence. *)
Definition slice_from (n : nat) (value : value) :=
  match value with
  | VList l => VList (drop n l)
  | VTuple l => VTuple (drop n l)
  | _ => value
  end.

Definition SeqType_check (content_schema : list checker)
    (tail_schema : option checker) (value : value) : outcome bool :=
  match value with
  | VList items | VTuple items =>
      if (List.length items <? List.length content_schema)%nat then Return false
      else
        ok <- py_all
                (fun i => s <- index content_schema i ;;
                          x <- index items i ;; s x)
                (seq 0 (List.length content_schema)) ;;
        if negb ok then Return false
        else if (List.length content_schema <? List.length items)%nat then
          match tail_schema with
          | None => Return false
          | Some s =>
              ok <- s (slice_from (List.length content_schema) value) ;;
              if negb ok then Return false else Return true
          end
        else Return true
  | _ => Return false
  end.

Definition StrType_check (self_value : option string)
    (length : option range_check) (value : value) : outcome bool :=
  match value with
  | VStr s =>
      Return (match self_value with None => true | Some v => String.eqb s v end) &&&
      none_or_range length (NInt (Z.of_nat (String.length s)))
  | _ => Return false
  end.

(** Method dispatch. *)
Fixpoint check (self : validator) : checker :=
  match self with
  | AllType alts => AllType_check (map check alts)
  | AnyType alts => AnyType_check (option_map (map check) alts)
  | ArrType content_schema length => ArrType_check (check content_schema) length
  | BoolType => BoolType_check
  | DefType => DefType_check
  | FailType => FailType_check
  | IntType value range => IntType_check value range
  | MapType value_schema => MapType_check (check value_schema)
  | NilType => NilType_check
  | NumType value range => NumType_check value range
  | OneType => OneType_check
  | RecType known rest_schema required optional =>
      RecType_check known (option_map check rest_schema)
        (map (fun p => match p with (k, s) => (k, check s) end) required)
        (map (fun p => match p with (k, s) => (k, check s) end) optional)
  | SeqType content_schema tail_schema =>
      SeqType_check (map check content_schema) (option_map check tail_schema)
  | StrType value length => StrType_check value length
  end.

(** *** The constructors

    Every [__init__] receives the schema (a dictionary by then) and the
    factory, of which it uses [rx.make_schema] only. *)

(** [schema.get(k)] *)
Definition get (schema : list (string * value)) (k : string) : value :=
  match dict_get schema k with Some v => v | None => VNone end.

Section Constructors.
Variable rx_make_schema : value -> outcome validator.

(** [[rx.make_schema(s) for s in v]] *)
Definition make_each (v : value) : outcome (list validator) :=
  elems <- py_iter v ;; py_map rx_make_schema elems.

(** [_CoreType.__init__], inherited by the types without parameters. *)
Definition CoreType_init (schema : list (string * value)) : outcome unit :=
  require (keys_within ["type"] schema) SchemaError.

Definition AllType_init (schema : list (string * value)) : outcome validator :=
  require (keys_within ["type"; "of"] schema) SchemaError ;;;
  require (py_truthy (get schema "of")) SchemaError ;;;
  alternatives <- dict_item schema "of" ;;
  alts <- make_each alternatives ;;
  Return (AllType alts).

Definition AnyType_init (schema : list (string * value)) : outcome validator :=
  require (keys_within ["type"; "of"] schema) SchemaError ;;;
  if dict_in "of" schema then
    alternatives <- dict_item schema "of" ;;
    require (py_truthy alternatives) SchemaError ;;;
    alts <- make_each alternatives ;;
    Return (AnyType (Some alts))
  else Return (AnyType None).

Definition ArrType_init (schema : list (string * value)) : outcome validator :=
  require (keys_within ["type"; "contents"; "length"] schema) SchemaError ;;;
  require (py_truthy (get schema "contents")) SchemaError ;;;
  contents <- dict_item schema "contents" ;;
  content_schema <- rx_make_schema contents ;;
  length <- (if py_truthy (get schema "length") then
               opt <- dict_item schema "length" ;;
               f <- make_range_check opt ;; Return (Some f)
             else Return None) ;;
  Return (ArrType content_schema length).

Definition IntType_init (schema : list (string * value)) : outcome validator :=
  require (keys_within ["type"; "range"; "value"] schema) SchemaError ;;;
  value <- (if dict_in "value" schema then
              v <- dict_item schema "value" ;;
              match v with
              | VNum n =>
                  m <- mod_one n ;;
                  require (num_eq m (NInt 0)) SchemaError ;;;
                  Return (Some n)
              | _ => Raise SchemaError
              end
            else Return None) ;;
  range <- (if dict_in "range" schema then
              opt <- dict_item schema "range" ;;
              f <- make_range_check opt ;; Return (Some f)
            else Return None) ;;
  Return (IntType value range).

Definition MapType_init (schema : list (string * value)) : outcome validator :=
  require (keys_within ["type"; "values"] schema) SchemaError ;;;
  require (py_truthy (get schema "values")) SchemaError ;;;
  values <- dict_item schema "values" ;;
  value_schema <- rx_make_schema values ;;
  Return (MapType value_schema).

Definition NumType_init (schema : list (string * value)) : outcome validator :=
  require (keys_within ["type"; "range"; "value"] schema) SchemaError ;;;
  value <- (if dict_in "value" schema then
              v <- dict_item schema "value" ;;
              match v with
              | VNum n => Return (Some n)
              | _ => Raise SchemaError
              end
            else Return None) ;;
  range <- (if py_truthy (get schema "range") then
              opt <- dict_item schema "range" ;;
              f <- make_range_check opt ;; Return (Some f)
            else Return None) ;;
  Return (NumType value range).

(** The inner loop of [RecType.__init__] over the fields of one table. *)
Fixpoint rec_fields (table : list (string * value)) (fields : list string)
    (known : gset string) (which : list (string * validator))
  : outcome (gset string * list (string * validator)) :=
  match fields with
  | [] => Return (known, which)
  | field :: fields' =>
      if bool_decide (field ∈ known) then Raise SchemaError
      else
        doc <- dict_item table field ;;
        s <- rx_make_schema doc ;;
        rec_fields table fields' ({[field]} ∪ known) (dict_set which field s)
  end.

(** [schema.get(which, {}).keys()] and the loop over them. *)
Definition rec_table (schema : list (string * value)) (which : string)
    (known : gset string)
  : outcome (gset string * list (string * validator)) :=
  match dict_get schema which with
  | None => Return (known, [])
  | Some (VDict table) => rec_fields table (dict_keys table) known []
  | Some _ => Raise AttributeError
  end.

Definition RecType_init (schema : list (string * value)) : outcome validator :=
  require (keys_within ["type"; "rest"; "required"; "optional"] schema)
    SchemaError ;;;
  rest_schema <- (if py_truthy (get schema "rest") then
                    rest <- dict_item schema "rest" ;;
                    s <- rx_make_schema rest ;; Return (Some s)
                  else Return None) ;;
  req <- rec_table schema "required" ∅ ;;
  opt <- rec_table schema "optional" (fst req) ;;
  Return (RecType (fst opt) rest_schema (snd req) (snd opt)).

Definition SeqType_init (schema : list (string * value)) : outcome validator :=
  require (keys_within ["type"; "contents"; "tail"] schema) SchemaError ;;;
  require (py_truthy (get schema "contents")) SchemaError ;;;
  contents <- dict_item schema "contents" ;;
  content_schema <- make_each contents ;;
  tail_schema <- (if py_truthy (get schema "tail") then
                    tail <- dict_item schema "tail" ;;
                    s <- rx_make_schema tail ;; Return (Some s)
                  else Return None) ;;
  Return (SeqType content_schema tail_schema).

Definition StrType_init (schema : list (string * value)) : outcome validator :=
  require (keys_within ["type"; "value"; "length"] schema) SchemaError ;;;
  value <- (if dict_in "value" schema then
              v <- dict_item schema "value" ;;
              match v with
              | VStr s => Return (Some s)
              | _ => Raise SchemaError
              end
            else Return None) ;;
  length <- (if dict_in "length" schema then
               opt <- dict_item schema "length" ;;
               f <- make_range_check opt ;; Return (Some f)
             else Return None) ;;
  Return (StrType value length).

(** [type_class(schema, self)] *)
Definition construct (type_class : kind) (schema : list (string * value))
  : outcome validator :=
  match type_class with
  | KAll => AllType_init schema
  | KAny => AnyType_init schema
  | KArr => ArrType_init schema
  | KBool => CoreType_init schema ;;; Return BoolType
  | KDef => CoreType_init schema ;;; Return DefType
  | KFail => CoreType_init schema ;;; Return FailType
  | KInt => IntType_init schema
  | KMap => MapType_init schema
  | KNil => CoreType_init schema ;;; Return NilType
  | KNum => NumType_init schema
  | KOne => CoreType_init schema ;;; Return OneType
  | KRec => RecType_init schema
  | KSeq => SeqType_init schema
  | KStr => StrType_init schema
  end.
End Constructors.

(** *** Compilation

    [make_schema] calls itself through the constructors and through learned
    types; [fuel] bounds the depth of these calls. *)
Fixpoint make_schema (fuel : nat) (self : Factory) (schema : value)
  : outcome validator :=
  match fuel with
  | O => Timeout
  | S fuel =>
      let schema :=
        match schema with
        | VStr _ => VDict [("type", schema)]
        | _ => schema
        end in
      match schema with
      | VDict schema =>
          type_name <- dict_item schema "type" ;;
          uri <- expand_uri self type_name ;;
          match type_registry self !! uri with
          | None => Raise SchemaError
          | Some (Learned learned) =>
              require (keys_within ["type"] schema) SchemaError ;;;
              make_schema fuel self learned
          | Some (TypeClass type_class) =>
              construct (make_schema fuel self) type_class schema
          end
      | _ => Raise SchemaError
      end
  end.

(** [learn_type] compiles the schema, discards the result and stores the
    schema itself. *)
Definition learn_type (fuel : nat) (self : Factory) (uri : string)
    (schema : value) : Factory * outcome unit :=
  match type_registry self !! uri with
  | Some _ => (self, Raise SchemaError)
  | None =>
      match make_schema fuel self schema with
      | Return _ =>
          ({| prefix_registry := prefix_registry self;
              type_registry := <[uri := Learned schema]> (type_registry self) |},
           Return tt)
      | Raise e => (self, Raise e)
      | Timeout => (self, Timeout)
      end
  end.

(** A validator is compiled when some call of [make_schema] returns it. *)
Definition compiled (v : validator) : Prop :=
  exists fuel rx schema, make_schema fuel rx schema = Return v.

(** * Vocabulary of the properties, and sample data *)

(** The numbers that have an order: all but the complex ones. *)
Definition is_real (n : number) : bool :=
  match to_real n with Some _ => true | None => false end.

(** A number is integral when it equals some integer. *)
Definition integral (n : number) : Prop := exists z : Z, num_eq n (NInt z) = true.

(** Every bound of the specification is a number. *)
Definition number_bounds (d : list (string * value)) : bool :=
  forallb (fun b => match b with VNum _ => true | _ => false end)
    (dict_values d).

(** Every bound is an ordered number. *)
Definition real_bounds (d : list (string * value)) : bool :=
  forallb (fun b => match b with VNum n => is_real n | _ => false end)
    (dict_values d).

(** The bound named [k] of a specification, with its default. *)
Definition bound (d : list (string * value)) (k : string) (default : pyfloat)
  : number :=
  match dict_get d k with Some (VNum n) => n | _ => NFloat default end.

(** The predicate as the specification words it. *)
Definition in_range (d : list (string * value)) (x : number) : Prop :=
  num_ge x (bound d "min" neg_inf) = Return true /\
  num_le x (bound d "max" inf) = Return true /\
  num_gt x (bound d "min-ex" neg_inf) = Return true /\
  num_lt x (bound d "max-ex" inf) = Return true.

(** [{'min': 0, 'max': 10}] and [{'min-ex': 0}] *)
Definition range_0_10 : list (string * value) :=
  [("min", VInt 0); ("max", VInt 10)].
Definition range_above_0 : list (string * value) := [("min-ex", VInt 0)].

(** The float [0.0001], exactly. *)
Definition float_0_0001 : number :=
  NFloat (FFin (7378697629483821 # 73786976294838206464)).

(** The schema [{type: type, ...params}]. *)
Definition doc (type : string) (params : list (string * value)) : value :=
  VDict (("type", VStr type) :: params).

(** [{type: //seq, contents: [//int, //str]}], and the same with
    [tail: {type: //arr, contents: {type: //int}}] *)
Definition seq_int_str : value :=
  doc "//seq" [("contents", VList [VStr "//int"; VStr "//str"])].
Definition seq_int_str_tail : value :=
  doc "//seq" [("contents", VList [VStr "//int"; VStr "//str"]);
               ("tail", doc "//arr" [("contents", doc "//int" [])])].

(** [o'] is [o], or [o] ran out of fuel. *)
Definition refines {A} (o o' : outcome A) : Prop := o = Timeout \/ o = o'.

(** The type name resolves to the class [k] in the registries of [rx]. *)
Definition resolves (rx : Factory) (type_name : string) (k : kind) : Prop :=
  exists u, expand_uri rx (VStr type_name) = Return u
            /\ type_registry rx !! u = Some (TypeClass k).

(** [{type: tn, of: [s1, s2]}] *)
Definition all_of (type_name : string) (s1 s2 : value) : value :=
  doc type_name [("of", VList [s1; s2])].

(** The float [3.5]. *)
Definition float_3_5 : value := VFloat (7 # 2).

(** A factory in which the prefix [x] is registered with the empty base. *)
Definition empty_base_Factory : Factory := fst (add_prefix new_Factory "x" "").

(** [{type: //num, range: {min: 0}}], [{type: //int, range: {min: 'a'}}],
    [{type: //int, range: ['min']}] and the number [1j] *)
Definition num_min_0 : value := doc "//num" [("range", VDict [("min", VInt 0)])].
Definition int_min_a : value := doc "//int" [("range", VDict [("min", VStr "a")])].
Definition int_range_list : value := doc "//int" [("range", VList [VStr "min"])].
Definition complex_j : value := VNum (NComplex (FFin 0) (FFin 1)).

(** The factory after [type_registry[uri] = {'schema': schema}]. *)
Definition learned (rx : Factory) (uri : string) (schema : value) : Factory :=
  {| prefix_registry := prefix_registry rx;
     type_registry := <[uri := Learned schema]> (type_registry rx) |}.

(** A schema that names a type nobody registered. *)
Definition unknown_type : value := doc "//nope" [].

(** [known] holds the names of the required and of the optional fields. *)
Definition known_ok (v : validator) : Prop :=
  match v with
  | RecType known _ required optional =>
      forall k : string,
        k ∈ known <-> k ∈ dict_keys required \/ k ∈ dict_keys optional
  | _ => True
  end.

(** The schema as the dictionary [make_schema] goes on with. *)
Definition as_dict (schema : value) : option (list (string * value)) :=
  match schema with
  | VStr _ => Some [("type", schema)]
  | VDict d => Some d
  | _ => None
  end.

(** The keys of [d] that are neither required nor optional fields, as the
    specification words them. *)
Definition unknown_keys (required optional : list (string * validator))
    (d : list (string * value)) : list string :=
  filter (fun k => (k ∉ dict_keys required) /\ (k ∉ dict_keys optional))
    (dict_keys d).

(** The part of [d] at the keys [keys]. *)
Definition submapping (d : list (string * value)) (keys : list string)
  : list (string * value) :=
  filter (fun p => p.1 ∈ keys) d.

(** The table of the bound [check] methods of a table of sub-schemas. *)
Definition bound_checks (fields : list (string * validator))
  : list (string * checker) :=
  map (fun p => match p with (k, s) => (k, check s) end) fields.

(** [{type: //rec, required: {a: //int}, optional: {b: //str}}], and the
    same with [rest: {type: //any}] *)
Definition rec_closed : value :=
  doc "//rec" [("required", VDict [("a", VStr "//int")]);
               ("optional", VDict [("b", VStr "//str")])].
Definition rec_open : value :=
  doc "//rec" [("required", VDict [("a", VStr "//int")]);
               ("optional", VDict [("b", VStr "//str")]);
               ("rest", doc "//any" [])].

(** What [rec_closed] compiles to. *)
Definition rec_closed_validator : validator :=
  RecType ({["b"]} ∪ ({["a"]} ∪ ∅)) None
    [("a", IntType None None)] [("b", StrType None None)].

(** Induction on validators through the lists and tables of sub-schemas. *)

(** [None = Some x] is absurd. *)
Definition from_None {A} {Q : Prop} {x : A} (H : None = Some x) : Q :=
  False_ind Q
    (eq_ind None (fun o => match o with None => True | Some _ => False end)
       I (Some x) H).

Section validator_induction.
Variable P : validator -> Prop.
Hypothesis HAll : forall alts, Forall P alts -> P (AllType alts).
Hypothesis HAny : forall alts,
  (forall l, alts = Some l -> Forall P l) -> P (AnyType alts).
Hypothesis HArr : forall c len, P c -> P (ArrType c len).
Hypothesis HBool : P BoolType.
Hypothesis HDef : P DefType.
Hypothesis HFail : P FailType.
Hypothesis HInt : forall val rng, P (IntType val rng).
Hypothesis HMap : forall c, P c -> P (MapType c).
Hypothesis HNil : P NilType.
Hypothesis HNum : forall val rng, P (NumType val rng).
Hypothesis HOne : P OneType.
Hypothesis HRec : forall known rest required optional,
  (forall s, rest = Some s -> P s) ->
  Forall (fun p => P p.2) required -> Forall (fun p => P p.2) optional ->
  P (RecType known rest required optional).
Hypothesis HSeq : forall cs tail,
  Forall P cs -> (forall s, tail = Some s -> P s) -> P (SeqType cs tail).
Hypothesis HStr : forall val len, P (StrType val len).

(** The induction principle, by recursion on the validator. *)
Fixpoint validator_induction (v : validator) : P v :=
  let each :=
    fix each (l : list validator) : Forall P l :=
      match l with
      | [] => @List.Forall_nil _ P
      | s :: l' => @List.Forall_cons _ P s l' (validator_induction s) (each l')
      end in
  let fields :=
    fix fields (l : list (string * validator)) : Forall (fun p => P p.2) l :=
      match l with
      | [] => @List.Forall_nil _ (fun p => P p.2)
      | (k, s) :: l' =>
          @List.Forall_cons _ (fun p => P p.2) (k, s) l'
            (validator_induction s) (fields l')
      end in
  let maybe (o : option validator) : forall s, o = Some s -> P s :=
    match o with
    | Some s' => fun s (H : Some s' = Some s) =>
        eq_ind s' P (validator_induction s') s (f_equal (default s') H)
    | None => fun s (H : None = Some s) => from_None H
    end in
  match v with
  | AllType alts => HAll alts (each alts)
  | AnyType alts =>
      HAny alts
        match alts with
        | Some l' => fun l (H : Some l' = Some l) =>
            eq_ind l' (Forall P) (each l') l (f_equal (default l') H)
        | None => fun l (H : None = Some l) => from_None H
        end
  | ArrType c len => HArr c len (validator_induction c)
  | BoolType => HBool
  | DefType => HDef
  | FailType => HFail
  | IntType val rng => HInt val rng
  | MapType c => HMap c (validator_induction c)
  | NilType => HNil
  | NumType val rng => HNum val rng
  | OneType => HOne
  | RecType known rest required optional =>
      HRec known rest required optional (maybe rest) (fields required)
        (fields optional)
  | SeqType cs tail => HSeq cs tail (each cs) (maybe tail)
  | StrType val len => HStr val len
  end.
End validator_induction.

(** The numbers of the classes [bool], [int] and [float]. *)
Definition plain_number (n : number) : bool :=
  match n with
  | NBool _ | NInt _ | NFloat _ => true
  | NComplex _ _ => false
  end.

(** Data all of whose numbers are of the classes [bool], [int] and
    [float]. *)
Fixpoint plain (x : value) : bool :=
  match x with
  | VNum n => plain_number n
  | VNone | VStr _ => true
  | VList l | VTuple l => forallb plain l
  | VDict d => forallb (fun p => plain p.2) d
  end.

(** Every bound is a number of these classes. *)
Definition plain_bounds (d : list (string * value)) : bool :=
  forallb (fun b => match b with VNum n => plain_number n | _ => false end)
    (dict_values d).

(** The range check, when there is one, holds a dictionary of such
    bounds. *)
Definition plain_range (f : option Util.range_check) : bool :=
  match f with
  | None => true
  | Some f => match Util.r f with VDict d => plain_bounds d | _ => false end
  end.

(** The fixed value, when there is one, is a number of these classes. *)
Definition plain_fixed (val : option number) : bool :=
  match val with Some n => plain_number n | None => true end.

(** Validators all of whose bounds and fixed numbers are of the classes
    [bool], [int] and [float]. *)
Fixpoint plain_validator (v : validator) : bool :=
  match v with
  | AllType alts => forallb plain_validator alts
  | AnyType alts =>
      match alts with Some l => forallb plain_validator l | None => true end
  | ArrType c len => plain_validator c && plain_range len
  | IntType val rng | NumType val rng => plain_fixed val && plain_range rng
  | MapType c => plain_validator c
  | RecType _ rest required optional =>
      match rest with Some s => plain_validator s | None => true end
      && forallb (fun p => plain_validator p.2) required
      && forallb (fun p => plain_validator p.2) optional
  | SeqType cs tail =>
      forallb plain_validator cs
      && match tail with Some s => plain_validator s | None => true end
  | StrType _ len => plain_range len
  | BoolType | DefType | FailType | NilType | OneType => true
  end.

(** ** Vocabulary of the further properties *)

(** The text has no newline. *)
Fixpoint no_newline (s : string) : bool :=
  match s with
  | EmptyString => true
  | String c s' => negb (Ascii.eqb c Util.newline) && no_newline s'
  end.

(** A range specification with the single bound [k]. *)
Definition one_bound (k : string) (q : Q) : Util.range_check :=
  Util.RangeCheck (VDict [(k, VFloat q)]).

(** The number is a finite real. *)
Definition finite (x : number) : Prop := exists q, to_real x = Some (FFin q).

(** Every character of the text satisfies [p]. *)
Fixpoint all_chars (p : ascii -> bool) (s : string) : bool :=
  match s with
  | EmptyString => true
  | String c s' => p c && all_chars p s'
  end.

(** The shorthand type name [/prefix/suffix]. *)
Definition shorthand (prefix suffix : string) : string :=
  String "/" (prefix +:+ String "/" suffix).

(** What [expand_uri] gives for the prefix and suffix of a shorthand. *)
Definition expansion (rx : Factory) (prefix suffix : string) : outcome string :=
  match prefix_registry rx !! prefix with
  | Some base => Return (base +:+ suffix)
  | None => Raise ValueError
  end.

(** The type registry that [Factory()] builds, written out. *)
Definition core_registry : gmap string type_entry :=
  foldr (fun k m => <[uri k := TypeClass k]> m) ∅ core_types.

(** [Factory(register_core_types=False)] *)
Definition bare_Factory : Factory := fst (Factory_init false).

(** A learned type used in the examples: the integers from one up. *)
Definition positive_int : value :=
  doc "//int" [("range", VDict [("min", VInt 1)])].
Definition positive_uri : string := "tag:example.com,2024:positive".

(** [rx'] has every prefix and every type of [rx], bound as in [rx]. *)
Definition extends (rx rx' : Factory) : Prop :=
  prefix_registry rx ⊆ prefix_registry rx'
  /\ type_registry rx ⊆ type_registry rx'.

(** What [o] returns, [o'] returns. *)
Definition keeps {A} (o o' : outcome A) : Prop :=
  forall a, o = Return a -> o' = Return a.

(** The parameters each core type accepts, and the one it cannot do
    without, as its constructor tests them. *)
Definition parameters (k : kind) : list string :=
  match k with
  | KAll | KAny => ["type"; "of"]
  | KArr => ["type"; "contents"; "length"]
  | KInt | KNum => ["type"; "range"; "value"]
  | KMap => ["type"; "values"]
  | KRec => ["type"; "rest"; "required"; "optional"]
  | KSeq => ["type"; "contents"; "tail"]
  | KStr => ["type"; "value"; "length"]
  | KBool | KDef | KFail | KNil | KOne => ["type"]
  end.

Definition required_parameter (k : kind) : option string :=
  match k with
  | KAll => Some "of"
  | KArr | KSeq => Some "contents"
  | KMap => Some "values"
  | _ => None
  end.

(** The tables of a compiled [rec] have distinct field names, and no field
    is in both. *)
Definition fields_ok (v : validator) : Prop :=
  match v with
  | RecType _ _ required optional =>
      NoDup (dict_keys required) /\ NoDup (dict_keys optional)
      /\ (forall k : string,
            k ∈ dict_keys required -> k ∈ dict_keys optional -> False)
  | _ => True
  end.

(** The first element of [l] whose outcome is [Return hit] comes after
    elements whose outcomes are all [Return (negb hit)]. *)
Definition first_hit {A} (f : A -> outcome bool) (hit : bool) (l : list A)
  : Prop :=
  exists i a, l !! i = Some a /\ f a = Return hit
    /\ forall j b, (j < i)%nat -> l !! j = Some b -> f b = Return (negb hit).

(** What a [check] never does: it raises none of the exceptions of an
    unguarded access or of the compilation. *)
Definition check_outcome (o : outcome bool) : Prop :=
  match o with
  | Return _ => True
  | Raise e =>
      e <> KeyError /\ e <> IndexError /\ e <> SchemaError /\ e <> ValueError
  | Timeout => False
  end.

(** A sample validator and value: an array of at most two integers. *)
Definition short_ints : validator :=
  ArrType (IntType None None)
    (Some (Util.RangeCheck (VDict [("max", VInt 2)]))).

(** Induction on values through lists, tuples and dictionaries. *)
Section value_induction.
Variable P : value -> Prop.
Hypothesis HNone : P VNone.
Hypothesis HNum : forall n, P (VNum n).
Hypothesis HStr : forall s, P (VStr s).
Hypothesis HList : forall l, Forall P l -> P (VList l).
Hypothesis HTuple : forall l, Forall P l -> P (VTuple l).
Hypothesis HDict : forall d, Forall (fun p => P p.2) d -> P (VDict d).

(** The induction principle, by recursion on the value. *)
Fixpoint value_induction (v : value) : P v :=
  let each :=
    fix each (l : list value) : Forall P l :=
      match l with
      | [] => @List.Forall_nil _ P
      | x :: l' => @List.Forall_cons _ P x l' (value_induction x) (each l')
      end in
  let items :=
    fix items (d : list (string * value)) : Forall (fun p => P p.2) d :=
      match d with
      | [] => @List.Forall_nil _ (fun p => P p.2)
      | (k, x) :: d' =>
          @List.Forall_cons _ (fun p => P p.2) (k, x) d'
            (value_induction x) (items d')
      end in
  match v with
  | VNone => HNone
  | VNum n => HNum n
  | VStr s => HStr s
  | VList l => HList l (each l)
  | VTuple l => HTuple l (each l)
  | VDict d => HDict d (items d)
  end.
End value_induction.

(** The values directly inside a value. *)
Definition children (v : value) : list value :=
  match v with
  | VList l | VTuple l => l
  | VDict d => dict_values d
  | _ => []
  end.

(** [make_schema] finishes on [schema] within [n] nested calls. *)
Definition halts (rx : Factory) (n : nat) (schema : value) : Prop :=
  make_schema n rx schema <> Timeout.

(** Every learned schema of the factory compiles. *)
Definition learned_compile (rx : Factory) : Prop :=
  exists n, forall uri schema,
    type_registry rx !! uri = Some (Learned schema) ->
    exists v, make_schema n rx schema = Return v.

(** The range predicate, when there is one, closes over an argument that
    [make_range_check] accepts. *)
Definition range_ok (rng : option Util.range_check) : Prop :=
  forall f, rng = Some f -> Util.make_range_check (Util.r f) = Return f.

(** The attributes of a compiled validator are what its constructor lets
    through. *)
Definition attributes_ok (v : validator) : Prop :=
  match v with
  | IntType val rng =>
      (forall n, val = Some n -> is_real n = true /\ integral n) /\ range_ok rng
  | NumType _ rng => range_ok rng
  | StrType _ len => range_ok len
  | ArrType _ len => range_ok len
  | AllType alts => alts <> []
  | AnyType alts => alts <> Some []
  | SeqType cs _ => cs <> []
  | _ => True
  end.

(** * Properties *)

(** ** Outcomes *)

Lemma bind_Return {A B} (c : outcome A) (k : A -> outcome B) (b : B) :
  bind c k = Return b <-> exists a, c = Return a /\ k a = Return b.
Proof.
  split.
  - destruct c as [a| |]; simpl; intros H; try discriminate. eauto.
  - intros (a & -> & H). exact H.
Qed.

Lemma and_then_true (a b : outcome bool) :
  a &&& b = Return true <-> a = Return true /\ b = Return true.
Proof.
  unfold and_then. rewrite bind_Return. split.
  - intros ([] & -> & H); [auto | discriminate].
  - intros [-> ->]. eauto.
Qed.

Lemma py_all_true {A} (f : A -> outcome bool) (l : list A) :
  py_all f l = Return true <-> Forall (fun x => f x = Return true) l.
Proof.
  induction l as [|x l IH]; simpl.
  - split; [constructor | reflexivity].
  - rewrite bind_Return, Forall_cons. split.
    + intros ([] & Hx & H); [|discriminate]. split; [assumption|]. now apply IH.
    + intros [Hx H]. exists true. split; [assumption|]. now apply IH.
Qed.

Lemma py_all_map {A B} (g : A -> B) (f : B -> outcome bool) (l : list A) :
  py_all f (map g l) = py_all (fun x => f (g x)) l.
Proof. induction l as [|x l IH]; simpl; [reflexivity|]. now rewrite IH. Qed.

Lemma py_any_map {A B} (g : A -> B) (f : B -> outcome bool) (l : list A) :
  py_any f (map g l) = py_any (fun x => f (g x)) l.
Proof. induction l as [|x l IH]; simpl; [reflexivity|]. now rewrite IH. Qed.

Lemma map_is_fmap {A B} (f : A -> B) (l : list A) : map f l = f <$> l.
Proof. reflexivity. Qed.

(** ** Dictionaries *)

Lemma dict_in_get {V} (k : string) (d : list (string * V)) :
  dict_in k d = true <-> exists v, dict_get d k = Some v.
Proof.
  unfold dict_in. destruct (dict_get d k) as [v|].
  - split; eauto.
  - split; [discriminate | intros [v [=]]].
Qed.

Lemma dict_in_keys {V} (k : string) (d : list (string * V)) :
  dict_in k d = true <-> k ∈ dict_keys d.
Proof.
  rewrite dict_in_get. induction d as [|[k' v'] d IH]; simpl.
  - split; [intros [v [=]] | intros H; inversion H].
  - rewrite elem_of_cons. destruct (String.eqb_spec k' k) as [->|Hne].
    + split; eauto.
    + rewrite IH. split; [auto | intros [->|H]; [congruence | assumption]].
Qed.

Lemma dict_get_map {V W} (g : V -> W) (d : list (string * V)) (k : string) :
  dict_get (map (fun p => match p with (k, s) => (k, g s) end) d) k
  = option_map g (dict_get d k).
Proof.
  induction d as [|[k' v'] d IH]; simpl; [reflexivity|].
  destruct (String.eqb k' k); [reflexivity | exact IH].
Qed.

Lemma dict_keys_map {V W} (g : V -> W) (d : list (string * V)) :
  dict_keys (map (fun p => match p with (k, s) => (k, g s) end) d) = dict_keys d.
Proof.
  unfold dict_keys. induction d as [|[k' v'] d IH]; simpl; [reflexivity|].
  now rewrite IH.
Qed.

Lemma dict_keys_set {V} (d : list (string * V)) (k : string) (v : V) (k' : string) :
  k' ∈ dict_keys (dict_set d k v) <-> k' ∈ dict_keys d \/ k' = k.
Proof.
  induction d as [|[k0 v0] d IH]; simpl.
  - rewrite list_elem_of_singleton. split; [auto | intros [H|H]; [inversion H | assumption]].
  - destruct (String.eqb_spec k0 k) as [->|Hne]; simpl; rewrite !elem_of_cons.
    + tauto.
    + rewrite IH. tauto.
Qed.

(** ** Numbers *)

Lemma float_ge_le (a b : pyfloat) : float_ge a b = float_le b a.
Proof. destruct a as [p|[]|], b as [q|[]|]; reflexivity. Qed.

Lemma float_gt_lt (a b : pyfloat) : float_gt a b = float_lt b a.
Proof. destruct a as [p|[]|], b as [q|[]|]; reflexivity. Qed.

Lemma num_cmp_flip (op op' : pyfloat -> pyfloat -> bool) (a b : number) :
  (forall x y, op x y = op' y x) -> num_cmp op a b = num_cmp op' b a.
Proof.
  intros H. unfold num_cmp.
  destruct (to_real a), (to_real b); try reflexivity. now rewrite H.
Qed.

Lemma num_cmp_real (op : pyfloat -> pyfloat -> bool) (a b : number) :
  is_real a = true -> is_real b = true ->
  exists c, num_cmp op a b = Return c.
Proof.
  unfold is_real, num_cmp. destruct (to_real a), (to_real b); try discriminate.
  eauto.
Qed.

Lemma and_then_Return (a b : bool) : Return a &&& Return b = Return (a && b).
Proof. destruct a; reflexivity. Qed.

Lemma Qminus_floor_zero (q : Q) :
  Qeq_bool (Qminus q (inject_Z (Qfloor q))) 0 = true
  <-> exists z : Z, Qeq_bool q (inject_Z z) = true.
Proof.
  rewrite Qeq_bool_iff. split.
  - intros H. exists (Qfloor q). apply Qeq_bool_iff.
    apply Qplus_inj_r with (z := Qopp (inject_Z (Qfloor q))).
    rewrite Qplus_opp_r. exact H.
  - intros [z Hz]. apply Qeq_bool_iff in Hz.
    assert (Qfloor q = z) as -> by (rewrite (Qfloor_comp _ _ Hz); apply Qfloor_Z).
    unfold Qminus. apply Qplus_inj_r with (z := inject_Z z).
    rewrite <- Qplus_assoc, (Qplus_comm (Qopp _)), Qplus_opp_r, Qplus_0_r, Qplus_0_l.
    exact Hz.
Qed.

(** [n % 1 == 0] holds exactly of the integral real numbers. *)
Lemma mod_one_zero (n : number) :
  (exists m, mod_one n = Return m /\ num_eq m (NInt 0) = true)
  <-> is_real n = true /\ integral n.
Proof.
  destruct n as [b|z|[q|s|]|re im]; simpl.
  - split; [intros _ | intros _; eexists; split; reflexivity].
    split; [reflexivity|]. exists (if b then 1 else 0)%Z. now destruct b.
  - split; [intros _ | intros _; eexists; split; [reflexivity|]].
    + split; [reflexivity|]. exists z. unfold num_eq; simpl.
      now rewrite Qeq_bool_refl.
    + now rewrite Z.mod_1_r.
  - unfold integral, num_eq; simpl. split.
    + intros (m & [= <-] & H). split; [reflexivity|].
      simpl in H. rewrite andb_true_r in H.
      apply Qminus_floor_zero in H as [z Hz]. exists z. now rewrite Hz.
    + intros [_ [z Hz]]. eexists; split; [reflexivity|]. simpl.
      rewrite andb_true_r in *. apply Qminus_floor_zero. eauto.
  - split.
    + intros (m & [= <-] & H). discriminate.
    + intros [_ [z Hz]]. discriminate.
  - split.
    + intros (m & [= <-] & H). discriminate.
    + intros [_ [z Hz]]. discriminate.
  - split.
    + intros (m & [=] & _).
    + intros [[=] _].
Qed.

(** ** Range checks *)

Lemma number_bounds_get (d : list (string * value)) (k : string) (b : value) :
  number_bounds d = true -> dict_get d k = Some b -> exists n, b = VNum n.
Proof.
  unfold number_bounds. induction d as [|[k' v'] d IH]; simpl; [discriminate|].
  intros [Hv Hd]%andb_true_iff. destruct (String.eqb k' k).
  - intros [= <-]. destruct v' as [|n| | | |]; try discriminate. eauto.
  - now apply IH.
Qed.

Lemma real_bounds_get (d : list (string * value)) (k : string) (b : value) :
  real_bounds d = true -> dict_get d k = Some b ->
  exists n, b = VNum n /\ is_real n = true.
Proof.
  unfold real_bounds. induction d as [|[k' v'] d IH]; simpl; [discriminate|].
  intros [Hv Hd]%andb_true_iff. destruct (String.eqb k' k).
  - intros [= <-]. destruct v' as [|n| | | |]; try discriminate. eauto.
  - now apply IH.
Qed.

Lemma real_bounds_number (d : list (string * value)) :
  real_bounds d = true -> number_bounds d = true.
Proof.
  unfold real_bounds, number_bounds.
  induction (dict_values d) as [|b l IH]; simpl; [reflexivity|].
  intros [Hb Hl]%andb_true_iff. rewrite (IH Hl), andb_true_r.
  now destruct b.
Qed.

Lemma bound_real (d : list (string * value)) (k : string) (default : pyfloat) :
  real_bounds d = true -> is_real (bound d k default) = true.
Proof.
  intros Hd. unfold bound. destruct (dict_get d k) as [b|] eqn:Hk; [|reflexivity].
  destruct (real_bounds_get d k b Hd Hk) as (n & -> & Hn). exact Hn.
Qed.

(** One conjunct of [check_range] is the comparison the specification
    writes, with the operands swapped. *)
Lemma r_get_compare (d : list (string * value)) (k : string)
    (default : pyfloat) (op op' : pyfloat -> pyfloat -> bool) (x : number) :
  number_bounds d = true ->
  (forall a b, op a b = op' b a) ->
  (b <- r_get (RangeCheck (VDict d)) k (VNum (NFloat default)) ;;
   compare (num_cmp op) b x)
  = num_cmp op' x (bound d k default).
Proof.
  intros Hd Hop. unfold r_get, bound; simpl.
  destruct (dict_get d k) as [b|] eqn:Hk; simpl.
  - destruct (number_bounds_get d k b Hd Hk) as (n & ->).
    simpl. now apply num_cmp_flip.
  - now apply num_cmp_flip.
Qed.

(** [check_range] as the four comparisons of the specification. *)
Lemma check_range_unfold (d : list (string * value)) (x : number) :
  number_bounds d = true ->
  check_range (RangeCheck (VDict d)) x
  = num_ge x (bound d "min" neg_inf) &&& num_le x (bound d "max" inf) &&&
    num_gt x (bound d "min-ex" neg_inf) &&& num_lt x (bound d "max-ex" inf).
Proof.
  intros Hd. unfold check_range, num_ge, num_le, num_gt, num_lt.
  rewrite (r_get_compare d "min" neg_inf float_le float_ge x Hd)
    by (intros; symmetry; apply float_ge_le).
  rewrite (r_get_compare d "max" inf float_ge float_le x Hd)
    by (intros; apply float_ge_le).
  rewrite (r_get_compare d "min-ex" neg_inf float_lt float_gt x Hd)
    by (intros; symmetry; apply float_gt_lt).
  rewrite (r_get_compare d "max-ex" inf float_gt float_lt x Hd)
    by (intros; apply float_gt_lt).
  reflexivity.
Qed.

Lemma check_range_spec (d : list (string * value)) (x : number) :
  number_bounds d = true ->
  check_range (RangeCheck (VDict d)) x = Return true <-> in_range d x.
Proof.
  intros Hd. rewrite (check_range_unfold d x Hd), !and_then_true.
  unfold in_range. tauto.
Qed.

(** With ordered bounds and an ordered number the predicate answers. *)
Lemma check_range_total (d : list (string * value)) (x : number) :
  real_bounds d = true -> is_real x = true ->
  exists b, check_range (RangeCheck (VDict d)) x = Return b.
Proof.
  intros Hd Hx. rewrite (check_range_unfold d x (real_bounds_number d Hd)).
  unfold num_ge, num_le, num_gt, num_lt.
  destruct (num_cmp_real float_ge x _ Hx (bound_real d "min" neg_inf Hd)) as [b1 ->].
  destruct (num_cmp_real float_le x _ Hx (bound_real d "max" inf Hd)) as [b2 ->].
  destruct (num_cmp_real float_gt x _ Hx (bound_real d "min-ex" neg_inf Hd)) as [b3 ->].
  destruct (num_cmp_real float_lt x _ Hx (bound_real d "max-ex" inf Hd)) as [b4 ->].
  rewrite !and_then_Return. eauto.
Qed.

Lemma issuperset_dict (names : list string) (d : list (string * value)) :
  issuperset names (VDict d) = Return (keys_within names d).
Proof.
  unfold issuperset, keys_within; simpl.
  induction (dict_keys d) as [|k l IH]; simpl; [reflexivity|].
  rewrite IH. now destruct (existsb (String.eqb k) names).
Qed.

Lemma issubset_dict (a b : string) (d : list (string * value)) :
  issubset [a; b] (VDict d) = Return (dict_in a d && dict_in b d).
Proof.
  unfold issubset; simpl.
  assert (forallb hashable (map VStr (dict_keys d)) = true) as ->.
  { induction (dict_keys d); simpl; auto. }
  simpl. rewrite andb_true_r.
  assert (forall n, existsb (fun e => in_names [n] e) (map VStr (dict_keys d))
                    = dict_in n d) as Hin.
  { intros n. unfold dict_in, dict_keys.
    induction d as [|[k v] d IH]; simpl; [reflexivity|].
    rewrite orb_false_r. rewrite IH.
    now destruct (String.eqb k n). }
  now rewrite !Hin.
Qed.

(** *** Sample range specifications *)

Lemma make_range_check_dict (d : list (string * value)) :
  keys_within ["min"; "max"; "min-ex"; "max-ex"] d = true ->
  dict_in "min" d && dict_in "min-ex" d = false ->
  dict_in "max" d && dict_in "max-ex" d = false ->
  Util.make_range_check (VDict d) = Return (Util.RangeCheck (VDict d)).
Proof.
  intros Hk Hmin Hmax. unfold Util.make_range_check.
  rewrite issuperset_dict, Hk; simpl.
  rewrite issubset_dict, Hmin; simpl.
  rewrite issubset_dict, Hmax; simpl.
  reflexivity.
Qed.

Lemma range_0_10_spec (x : number) :
  Util.check_range (Util.RangeCheck (VDict range_0_10)) x = Return true
  <-> exists q, to_real x = Some (FFin q) /\ Qle 0 q /\ Qle q 10.
Proof.
  unfold Util.check_range, Util.r_get, Util.compare; simpl.
  unfold num_le, num_ge, num_lt, num_gt, num_cmp; simpl.
  destruct (to_real x) as [[q|[]|]|]; simpl.
  - destruct (Qle_bool (inject_Z 0) q) eqn:H1;
      [destruct (Qle_bool q (inject_Z 10)) eqn:H2|]; simpl.
    + split; [intros _ | reflexivity].
      exists q. apply Qle_bool_iff in H1, H2. auto.
    + split; [discriminate|]. intros (q' & [= <-] & _ & H).
      apply Qle_bool_iff in H. unfold inject_Z in *. congruence.
    + split; [discriminate|]. intros (q' & [= <-] & H & _).
      apply Qle_bool_iff in H. unfold inject_Z in *. congruence.
  - split; [discriminate | intros (q & [=] & _)].
  - split; [discriminate | intros (q & [=] & _)].
  - split; [discriminate | intros (q & [=] & _)].
  - split; [discriminate | intros (q & [=] & _)].
Qed.

(** C6: for a bounds specification with keys among min, max, min-ex and
    max-ex, without both bounds on one side, whose bounds are numbers,
    [make_range_check] returns a predicate that is true of a number [x]
    exactly when [x >= min], [x <= max], [x > min-ex] and [x < max-ex], an
    absent bound being infinite; with ordered bounds it answers on every
    ordered number.  For [{min: 0, max: 10}] it holds exactly when
    [0 <= x <= 10]; for [{min-ex: 0}] it is false at [0] and true at
    [0.0001]. *)
Theorem make_range_check_correct :
  (forall d : list (string * value),
      keys_within ["min"; "max"; "min-ex"; "max-ex"] d = true ->
      dict_in "min" d && dict_in "min-ex" d = false ->
      dict_in "max" d && dict_in "max-ex" d = false ->
      number_bounds d = true ->
      exists f, Util.make_range_check (VDict d) = Return f /\
        (forall x, Util.check_range f x = Return true <-> in_range d x) /\
        (real_bounds d = true ->
         forall x, is_real x = true -> exists b, Util.check_range f x = Return b))
  /\ (exists f, Util.make_range_check (VDict range_0_10) = Return f /\
        forall x, Util.check_range f x = Return true
                  <-> exists q, to_real x = Some (FFin q) /\ Qle 0 q /\ Qle q 10)
  /\ (exists f, Util.make_range_check (VDict range_above_0) = Return f /\
        Util.check_range f (NInt 0) = Return false /\
        Util.check_range f float_0_0001 = Return true).
Proof.
  split; [|split].
  - intros d Hk Hmin Hmax Hd. eexists. split; [|split].
    + now apply make_range_check_dict.
    + intros x. now apply check_range_spec.
    + intros Hr x Hx. now apply check_range_total.
  - eexists. split; [reflexivity|]. apply range_0_10_spec.
  - eexists. split; [reflexivity|]. split; reflexivity.
Qed.

Lemma make_range_check_correct_witness :
  exists f, Util.make_range_check (VDict range_0_10) = Return f /\
    (forall x, Util.check_range f x = Return true <-> in_range range_0_10 x) /\
    (real_bounds range_0_10 = true ->
     forall x, is_real x = true -> exists b, Util.check_range f x = Return b).
Proof.
  apply (proj1 make_range_check_correct range_0_10); reflexivity.
Defined.

(** ** Sample schemas and values *)

(** ** Sequences *)

Lemma index_map_check (cs : list validator) (i : nat) :
  index (map check cs) i
  = match cs !! i with Some s => Return (check s) | None => Raise IndexError end.
Proof.
  unfold index. rewrite map_is_fmap, list_lookup_fmap.
  now destruct (cs !! i).
Qed.

(** The positional loop of [SeqType.check]. *)
Lemma positional_true (cs : list validator) (items : list value) :
  py_all (fun i => s <- index (map check cs) i ;; x <- index items i ;; s x)
    (seq 0 (length (map check cs))) = Return true
  <-> forall i s, cs !! i = Some s ->
        exists x, items !! i = Some x /\ check s x = Return true.
Proof.
  rewrite py_all_true, Forall_forall, length_map. split.
  - intros H i s Hs.
    assert (i ∈ seq 0 (length cs)) as Hi.
    { apply elem_of_seq. apply lookup_lt_Some in Hs. lia. }
    specialize (H i Hi). rewrite index_map_check, Hs in H. simpl in H.
    unfold index in H. destruct (items !! i) as [x|]; [|discriminate]. eauto.
  - intros H i Hi. apply elem_of_seq in Hi.
    destruct (lookup_lt_is_Some_2 cs i) as [s Hs]; [lia|].
    destruct (H i s Hs) as (x & Hx & Hc).
    rewrite index_map_check, Hs. simpl. unfold index. now rewrite Hx.
Qed.

Lemma SeqType_check_items (cs : list validator) (tail : option validator)
    (v : value) (items : list value) :
  v = VList items \/ v = VTuple items ->
  check (SeqType cs tail) v = Return true
  <-> length cs <= length items /\
      (forall i s, cs !! i = Some s ->
         exists x, items !! i = Some x /\ check s x = Return true) /\
      (length cs < length items ->
         exists t, tail = Some t /\
           check t (slice_from (length cs) v) = Return true).
Proof.
  intros Hv.
  assert (check (SeqType cs tail) v =
          if (length items <? length cs)%nat then Return false
          else
            ok <- py_all (fun i => s <- index (map check cs) i ;;
                                   x <- index items i ;; s x)
                    (seq 0 (length (map check cs))) ;;
            if negb ok then Return false
            else if (length cs <? length items)%nat then
              match tail with
              | None => Return false
              | Some t => ok <- check t (slice_from (length cs) v) ;;
                          if negb ok then Return false else Return true
              end
            else Return true) as ->.
  { destruct Hv as [-> | ->]; simpl; rewrite !length_map;
      now destruct tail. }
  destruct (Nat.ltb_spec (length items) (length cs)) as [Hlt|Hge].
  { split; [discriminate | intros [H _]; lia]. }
  rewrite bind_Return. split.
  - intros (ok & Hok & H). destruct ok; simpl in H; [|discriminate].
    pose proof (proj1 (positional_true cs items) Hok) as Hpos.
    split; [assumption|]. split; [assumption|].
    intros Hlen. destruct (Nat.ltb_spec (length cs) (length items)); [|lia].
    destruct tail as [t|]; [|discriminate]. exists t. split; [reflexivity|].
    simpl in H. apply bind_Return in H as ([] & Ht & H); [assumption|discriminate].
  - intros (_ & Hpos & Htail). exists true. split; [now apply positional_true|].
    simpl. destruct (Nat.ltb_spec (length cs) (length items)) as [Hlen|]; [|reflexivity].
    destruct (Htail Hlen) as (t & -> & Ht). simpl. now rewrite Ht.
Qed.

(** C7: a [seq] validator accepts a value exactly when the value is a
    sequence (a list or a tuple) at least as long as [contents], every
    positional element satisfies the schema at its position and, when the
    value is strictly longer, a tail schema was given and the remaining
    sub-sequence satisfies it: the value is its first [len(contents)]
    elements followed by [rest], and the tail schema accepts [rest] as a
    sequence of the same kind as the value.  The schema
    [{type: //seq, contents: [//int, //str]}] accepts [[1, 'x']] and rejects
    [[1, 'x', 2]]; with the tail [{type: //arr, contents: {type: //int}}] it
    accepts [[1, 'x', 2, 3]], whose remainder is [[2, 3]], and rejects
    [[1, 'x', 2, 'y']], whose remainder is [[2, 'y']]. *)
Theorem SeqType_check_spec :
  (forall (content_schema : list validator) (tail_schema : option validator)
          (v : value),
      check (SeqType content_schema tail_schema) v = Return true
      <-> exists (sequence : list value -> value) (items : list value),
            (sequence = VList \/ sequence = VTuple) /\ v = sequence items /\
            length content_schema <= length items /\
            (forall i s, content_schema !! i = Some s ->
               exists x, items !! i = Some x /\ check s x = Return true) /\
            (length content_schema < length items ->
               exists t front rest,
                 tail_schema = Some t /\
                 items = front ++ rest /\
                 length front = length content_schema /\
                 check t (sequence rest) = Return true))
  /\ (exists s, make_schema 2 new_Factory seq_int_str = Return s /\
        check s (VList [VInt 1; VStr "x"]) = Return true /\
        check s (VList [VInt 1; VStr "x"; VInt 2]) = Return false)
  /\ (exists s, make_schema 3 new_Factory seq_int_str_tail = Return s /\
        check s (VList [VInt 1; VStr "x"; VInt 2; VInt 3]) = Return true /\
        check s (VList [VInt 1; VStr "x"; VInt 2; VStr "y"]) = Return false).
Proof.
  assert (forall cs tail sequence items,
             sequence = VList \/ sequence = VTuple ->
             check (SeqType cs tail) (sequence items) = Return true
             <-> length cs <= length items /\
                 (forall i s, cs !! i = Some s ->
                    exists x, items !! i = Some x /\ check s x = Return true) /\
                 (length cs < length items ->
                    exists t front rest,
                      tail = Some t /\ items = front ++ rest /\
                      length front = length cs /\
                      check t (sequence rest) = Return true)) as Hseq.
  { intros cs tail sequence items Hs.
    rewrite (SeqType_check_items cs tail (sequence items) items)
      by (destruct Hs as [-> | ->]; auto).
    assert (slice_from (length cs) (sequence items)
            = sequence (drop (length cs) items)) as ->
      by (destruct Hs as [-> | ->]; reflexivity).
    split; intros (Hlen & Hpos & Htail); (split; [|split]); try assumption;
      intros Hlt.
    - destruct (Htail Hlt) as (t & -> & Ht).
      exists t, (take (length cs) items), (drop (length cs) items).
      split; [reflexivity|]. split; [symmetry; apply take_drop|].
      split; [rewrite length_take; lia | exact Ht].
    - destruct (Htail Hlt) as (t & front & rest & -> & -> & Hf & Ht).
      exists t. split; [reflexivity|].
      rewrite <- Hf, drop_app_length. exact Ht. }
  split; [|split].
  - intros cs tail v. split.
    + intros H. destruct v as [|n|s|items|items|d]; try discriminate.
      * exists VList, items. split; [auto|]. split; [reflexivity|].
        now apply Hseq in H; auto.
      * exists VTuple, items. split; [auto|]. split; [reflexivity|].
        now apply Hseq in H; auto.
    + intros (sequence & items & Hs & -> & H). now apply Hseq.
  - eexists. split; [vm_compute; reflexivity|]. split; vm_compute; reflexivity.
  - eexists. split; [vm_compute; reflexivity|]. split; vm_compute; reflexivity.
Qed.

(** ** Fuel

    More fuel never changes an outcome that is not [Timeout]. *)

Lemma refines_refl {A} (o : outcome A) : refines o o.
Proof. now right. Qed.

Lemma refines_bind {A B} (c c' : outcome A) (k k' : A -> outcome B) :
  refines c c' -> (forall a, refines (k a) (k' a)) ->
  refines (bind c k) (bind c' k').
Proof.
  intros [-> | <-] Hk; [now left|].
  destruct c as [a| |]; simpl; [apply Hk | now right | now left].
Qed.

Lemma refines_Return {A} (o : outcome A) (a : A) :
  refines (Return a) o -> o = Return a.
Proof. intros [H | H]; [discriminate | now symmetry]. Qed.

Lemma refines_Raise {A} (o : outcome A) (e : exn) :
  refines (Raise e) o -> o = Raise e.
Proof. intros [H | H]; [discriminate | now symmetry]. Qed.

Ltac refines_step :=
  match goal with
  | |- refines ?o ?o => apply refines_refl
  | |- refines (bind _ _) (bind _ _) => apply refines_bind; [|intros ?]
  | |- refines (if ?c then _ else _) (if ?c then _ else _) => destruct c
  | |- refines (match ?x with _ => _ end) (match ?x with _ => _ end) =>
      destruct x
  end.

Section Monotone.
Variables mk mk' : value -> outcome validator.
Hypothesis Hmk : forall s, refines (mk s) (mk' s).

Lemma py_map_refines (l : list value) :
  refines (py_map mk l) (py_map mk' l).
Proof.
  induction l as [|x l IH]; simpl; [apply refines_refl|].
  apply refines_bind; [apply Hmk | intros y].
  apply refines_bind; [apply IH | intros ys]. apply refines_refl.
Qed.

Lemma make_each_refines (v : value) :
  refines (make_each mk v) (make_each mk' v).
Proof.
  unfold make_each. apply refines_bind; [apply refines_refl | intros l].
  apply py_map_refines.
Qed.

Lemma rec_fields_refines table fields known which :
  refines (rec_fields mk table fields known which)
          (rec_fields mk' table fields known which).
Proof.
  revert known which. induction fields as [|f fields IH]; intros known which;
    simpl; [apply refines_refl|].
  destruct (bool_decide (f ∈ known)); [apply refines_refl|].
  apply refines_bind; [apply refines_refl | intros d].
  apply refines_bind; [apply Hmk | intros s]. apply IH.
Qed.

Lemma rec_table_refines schema which known :
  refines (rec_table mk schema which known) (rec_table mk' schema which known).
Proof.
  unfold rec_table. destruct (dict_get schema which) as [[]|];
    try apply refines_refl. apply rec_fields_refines.
Qed.

Lemma construct_refines (k : kind) (schema : list (string * value)) :
  refines (construct mk k schema) (construct mk' k schema).
Proof.
  destruct k; simpl;
    unfold AllType_init, AnyType_init, ArrType_init, IntType_init,
      MapType_init, NumType_init, RecType_init, SeqType_init, StrType_init;
    repeat first
      [ apply Hmk | apply make_each_refines | apply rec_table_refines
      | refines_step ].
Qed.
End Monotone.

Lemma make_schema_mono (n m : nat) (rx : Factory) (schema : value) :
  n <= m -> refines (make_schema n rx schema) (make_schema m rx schema).
Proof.
  revert m schema. induction n as [|n IH]; intros m schema Hle; [now left|].
  destruct m as [|m]; [lia|]. simpl.
  assert (forall s, refines (make_schema n rx s) (make_schema m rx s)) as Hmk
    by (intros s; apply IH; lia).
  set (schema' := match schema with VStr _ => VDict [("type", schema)] | _ => schema end).
  destruct schema' as [| | | | |d]; try apply refines_refl.
  apply refines_bind; [apply refines_refl | intros tn].
  apply refines_bind; [apply refines_refl | intros u].
  destruct (type_registry rx !! u) as [[k|learned]|]; [| |apply refines_refl].
  - now apply construct_refines.
  - apply refines_bind; [apply refines_refl | intros _]. apply Hmk.
Qed.

(** Two runs that both finish agree. *)
Lemma make_schema_deterministic (n m : nat) (rx : Factory) (schema : value)
    (v v' : validator) :
  make_schema n rx schema = Return v -> make_schema m rx schema = Return v' ->
  v = v'.
Proof.
  intros Hn Hm. destruct (Nat.le_ge_cases n m) as [Hle | Hle].
  - pose proof (make_schema_mono n m rx schema Hle) as H.
    rewrite Hn in H. apply refines_Return in H. congruence.
  - pose proof (make_schema_mono m n rx schema Hle) as H.
    rewrite Hm in H. apply refines_Return in H. congruence.
Qed.

(** ** Compiling a schema of a core type *)

Arguments expand_uri : simpl never.

Lemma make_schema_class (fuel : nat) (rx : Factory) (type_name : string)
    (k : kind) (params : list (string * value)) :
  resolves rx type_name k ->
  make_schema (S fuel) rx (doc type_name params)
  = construct (make_schema fuel rx) k (("type", VStr type_name) :: params).
Proof.
  intros (u & Hu & Hk). unfold doc. simpl.
  rewrite Hu. simpl. now rewrite Hk.
Qed.

Lemma make_schema_name (fuel : nat) (rx : Factory) (type_name : string) :
  make_schema (S fuel) rx (VStr type_name)
  = make_schema (S fuel) rx (doc type_name []).
Proof. reflexivity. Qed.

Lemma resolves_core (k : kind) :
  resolves new_Factory ("//" +:+ subname k) k.
Proof. destruct k; eexists; split; vm_compute; reflexivity. Qed.

(** ** [all] and [any] *)

Lemma AllType_check_true (alts : list validator) (v : value) :
  check (AllType alts) v = Return true
  <-> Forall (fun s => check s v = Return true) alts.
Proof.
  simpl. unfold AllType_check. now rewrite py_all_map, py_all_true.
Qed.

(** C9: when [all] is given two schemas, the compiled validator accepts a
    value exactly when the validators compiled from the two schemas both
    accept it; a compiled [any] without [of] accepts every value.  Both
    schemas do compile, given fuel, when their parts do. *)
Theorem all_any_composition :
  (forall (rx : Factory) (type_name : string) (s1 s2 : value)
          (fuel f1 f2 : nat) (a v1 v2 : validator) (x : value),
      resolves rx type_name KAll ->
      make_schema fuel rx (all_of type_name s1 s2) = Return a ->
      make_schema f1 rx s1 = Return v1 ->
      make_schema f2 rx s2 = Return v2 ->
      (check a x = Return true
       <-> check v1 x = Return true /\ check v2 x = Return true))
  /\ (forall (rx : Factory) (type_name : string) (s1 s2 : value)
             (fuel : nat) (v1 v2 : validator),
        resolves rx type_name KAll ->
        make_schema fuel rx s1 = Return v1 ->
        make_schema fuel rx s2 = Return v2 ->
        make_schema (S fuel) rx (all_of type_name s1 s2)
        = Return (AllType [v1; v2]))
  /\ (forall (rx : Factory) (type_name : string) (fuel : nat) (a : validator)
             (x : value),
        resolves rx type_name KAny ->
        make_schema fuel rx (doc type_name []) = Return a
        \/ make_schema fuel rx (VStr type_name) = Return a ->
        check a x = Return true)
  /\ (forall (rx : Factory) (type_name : string) (fuel : nat),
        resolves rx type_name KAny ->
        make_schema (S fuel) rx (doc type_name []) = Return (AnyType None))
  /\ resolves new_Factory "//all" KAll
  /\ resolves new_Factory "//any" KAny.
Proof.
  split; [|split; [|split; [|split; [|split]]]].
  - intros rx tn s1 s2 fuel f1 f2 a v1 v2 x Hres Ha H1 H2.
    destruct fuel as [|fuel]; [discriminate|].
    unfold all_of in Ha. rewrite (make_schema_class _ _ _ _ _ Hres) in Ha.
    simpl in Ha. unfold AllType_init, make_each in Ha. simpl in Ha.
    apply bind_Return in Ha as (alts & Halts & [= <-]).
    apply bind_Return in Halts as (w1 & Hw1 & Halts).
    apply bind_Return in Halts as (ws & Hws & [= <-]).
    apply bind_Return in Hws as (w2 & Hw2 & [= <-]).
    rewrite (make_schema_deterministic _ _ _ _ _ _ H1 Hw1).
    rewrite (make_schema_deterministic _ _ _ _ _ _ H2 Hw2).
    rewrite AllType_check_true, !Forall_cons, Forall_nil. tauto.
  - intros rx tn s1 s2 fuel v1 v2 Hres H1 H2.
    unfold all_of. rewrite (make_schema_class _ _ _ _ _ Hres).
    simpl. unfold AllType_init, make_each. simpl. now rewrite H1, H2.
  - intros rx tn fuel a x Hres Ha.
    destruct fuel as [|fuel]; [now destruct Ha|].
    rewrite make_schema_name in Ha. assert (Ha' := or_ind id id Ha). clear Ha.
    rewrite (make_schema_class _ _ _ _ _ Hres) in Ha'.
    injection Ha' as <-. reflexivity.
  - intros rx tn fuel Hres. now rewrite (make_schema_class _ _ _ _ _ Hres).
  - apply (resolves_core KAll).
  - apply (resolves_core KAny).
Qed.

Lemma all_any_composition_witness :
  check (AllType [IntType None None; NumType None None]) (VInt 3) = Return true
  <-> check (IntType None None) (VInt 3) = Return true
      /\ check (NumType None None) (VInt 3) = Return true.
Proof.
  apply (proj1 all_any_composition new_Factory "//all" (VStr "//int")
           (VStr "//num") 2 1 1).
  - apply (resolves_core KAll).
  - vm_compute. reflexivity.
  - vm_compute. reflexivity.
  - vm_compute. reflexivity.
Defined.

(** ** [int], [num] and [one] *)

Lemma none_or_range_true (rng : option Util.range_check) (n : number) :
  none_or_range rng n = Return true
  <-> forall f, rng = Some f -> Util.check_range f n = Return true.
Proof.
  destruct rng as [f|]; simpl.
  - split; [now intros H f' [= <-] | auto].
  - split; [now intros _ f [=] | reflexivity].
Qed.

(** C8: an [int] validator returns true only for numbers that are not
    booleans and are integral, that equal the fixed value and satisfy the
    range when these are given; [3.5] fails [int], and [True] fails [int]
    and [num] although it equals [1]. *)
Theorem IntType_check_spec :
  (forall (val : option number) (rng : option Util.range_check) (v : value),
      check (IntType val rng) v = Return true
      <-> exists n, v = VNum n /\ is_real n = true /\ is_bool n = false /\
            integral n /\
            (forall f, rng = Some f -> Util.check_range f n = Return true) /\
            (forall x, val = Some x -> num_eq n x = true))
  /\ (forall val rng, check (IntType val rng) float_3_5 = Return false)
  /\ (forall val rng,
        check (IntType val rng) (VBool true) = Return false /\
        check (NumType val rng) (VBool true) = Return false)
  /\ num_eq (NBool true) (NInt 1) = true
  /\ make_schema 1 new_Factory (VStr "//int") = Return (IntType None None)
  /\ make_schema 1 new_Factory (VStr "//num") = Return (NumType None None).
Proof.
  split; [|repeat split; vm_compute; reflexivity].
  intros val rng v. simpl. unfold IntType_check.
  destruct v as [|n|s|l|l|d];
    try (split; [discriminate | intros (n & [=] & _)]).
  rewrite !and_then_true, none_or_range_true, bind_Return. split.
  - intros [[[Hb Hm] Hr] Hv]. exists n. split; [reflexivity|].
    assert (exists m, mod_one n = Return m /\ num_eq m (NInt 0) = true) as Hm'.
    { destruct Hm as (m & Hm & [= H]). eauto. }
    apply mod_one_zero in Hm' as [Hreal Hint].
    repeat split; try assumption.
    + injection Hb as Hb. now destruct (is_bool n).
    + intros x ->. now injection Hv.
  - intros (n' & [= <-] & Hreal & Hb & Hint & Hr & Hv).
    destruct (proj2 (mod_one_zero n) (conj Hreal Hint)) as (m & Hm & Hz).
    repeat split.
    + now rewrite Hb.
    + exists m. now rewrite Hz.
    + assumption.
    + destruct val as [x|]; [|reflexivity]. now rewrite (Hv x eq_refl).
Qed.

(** C10: a [one] validator accepts both booleans, which the [int] and [num]
    validators reject. *)
Theorem OneType_check_bool :
  forall b : bool,
    check OneType (VBool b) = Return true
    /\ make_schema 1 new_Factory (VStr "//one") = Return OneType
    /\ (forall val rng, check (IntType val rng) (VBool b) = Return false)
    /\ (forall val rng, check (NumType val rng) (VBool b) = Return false).
Proof. intros b. repeat split. Qed.

(** ** Type names and prefixes *)

(** C3 (as stated): the name [/str], with a single slash, is not a type
    name; [expand_uri] raises on it. *)
Lemma expand_uri_single_slash :
  expand_uri new_Factory (VStr "/str") = Raise ValueError
  /\ expand_uri new_Factory (VStr "/str") <> Return (uri KStr).
Proof. split; [vm_compute; reflexivity | vm_compute; discriminate]. Qed.

(** C3 (amended): the name [//str], with the empty prefix between its two
    slashes and the suffix [str], resolves to the base registered for the
    empty prefix followed by [str]; in a new factory this is the URI of the
    core type [str]. *)
Theorem expand_uri_core_str :
  (forall (rx : Factory) (base : string),
      prefix_registry rx !! "" = Some base ->
      expand_uri rx (VStr "//str") = Return (base +:+ "str"))
  /\ expand_uri new_Factory (VStr "//str") = Return (uri KStr)
  /\ type_registry new_Factory !! uri KStr = Some (TypeClass KStr).
Proof.
  split; [|split; vm_compute; reflexivity].
  intros rx base Hbase. unfold expand_uri.
  change (match_scheme "//str") with false.
  change (match_shorthand "//str") with (Some ("", "str")).
  cbv beta iota. now rewrite Hbase.
Qed.

Lemma expand_uri_core_str_witness :
  expand_uri new_Factory (VStr "//str") = Return (core_base +:+ "str").
Proof.
  apply (proj1 expand_uri_core_str new_Factory core_base).
  vm_compute. reflexivity.
Defined.

(** A prefix registered with a non-empty base cannot be registered again. *)
Lemma add_prefix_registered (rx : Factory) (name base b : string) :
  prefix_registry rx !! name = Some b -> b <> "" ->
  add_prefix rx name base = (rx, Raise SchemaError).
Proof.
  intros Hb Hne. unfold add_prefix. rewrite Hb.
  destruct (String.eqb_spec b ""); [contradiction | reflexivity].
Qed.

(** C4: at a prefix registered with the empty base, the second
    [add_prefix] returns normally and replaces the base. *)
Theorem add_prefix_empty_base :
  prefix_registry empty_base_Factory !! "x" = Some ""
  /\ snd (add_prefix empty_base_Factory "x" "y") = Return tt
  /\ prefix_registry (fst (add_prefix empty_base_Factory "x" "y")) !! "x"
     = Some "y".
Proof. repeat split; vm_compute; reflexivity. Qed.

(** ** Checks that raise *)

(** C1: [check] raises on these compiled validators: a [num] with a range
    at a complex number, an [int] at a complex number, an [int] whose
    bound is a string, and an [int] whose range is a list. *)
Theorem check_raises :
  (exists s, make_schema 1 new_Factory num_min_0 = Return s
             /\ check s complex_j = Raise TypeError)
  /\ (exists s, make_schema 1 new_Factory (VStr "//int") = Return s
                /\ check s complex_j = Raise TypeError)
  /\ (exists s, make_schema 1 new_Factory int_min_a = Return s
                /\ check s (VInt 5) = Raise TypeError)
  /\ (exists s, make_schema 1 new_Factory int_range_list = Return s
                /\ check s (VInt 5) = Raise AttributeError).
Proof.
  repeat split; eexists; (split; [vm_compute; reflexivity|]);
    vm_compute; reflexivity.
Qed.

(** ** Learned types *)

(** C5: for a URI that is not registered, when the schema does not compile
    [learn_type] raises what the compilation raised and leaves the factory
    as it was, so the URI stays unregistered; when the schema compiles, the
    schema itself is stored under the URI. *)
Theorem learn_type_validates (rx : Factory) (uri : string) (schema : value) :
  type_registry rx !! uri = None ->
  (forall fuel e, make_schema fuel rx schema = Raise e ->
     forall n, fuel <= n ->
       learn_type n rx uri schema = (rx, Raise e)
       /\ type_registry (fst (learn_type n rx uri schema)) !! uri = None)
  /\ (forall fuel v, make_schema fuel rx schema = Return v ->
        forall n, fuel <= n ->
          learn_type n rx uri schema = (learned rx uri schema, Return tt)
          /\ type_registry (fst (learn_type n rx uri schema)) !! uri
             = Some (Learned schema))
  /\ (forall n, (forall v, make_schema n rx schema <> Return v) ->
        fst (learn_type n rx uri schema) = rx
        /\ snd (learn_type n rx uri schema) <> Return tt).
Proof.
  intros Huri. split; [|split].
  - intros fuel e He n Hle.
    pose proof (make_schema_mono fuel n rx schema Hle) as H.
    rewrite He in H. apply refines_Raise in H.
    unfold learn_type. rewrite Huri, H. split; [reflexivity | exact Huri].
  - intros fuel v Hv n Hle.
    pose proof (make_schema_mono fuel n rx schema Hle) as H.
    rewrite Hv in H. apply refines_Return in H.
    unfold learn_type. rewrite Huri, H. split; [reflexivity|].
    simpl. apply lookup_insert_eq.
  - intros n Hn. unfold learn_type. rewrite Huri.
    destruct (make_schema n rx schema) as [v|e|] eqn:Hv.
    + now destruct (Hn v).
    + split; [reflexivity | discriminate].
    + split; [reflexivity | discriminate].
Qed.

Lemma learn_type_validates_witness :
  learn_type 1 new_Factory "tag:example.com,2024:nope" unknown_type
  = (new_Factory, Raise SchemaError)
  /\ type_registry
       (fst (learn_type 1 new_Factory "tag:example.com,2024:nope" unknown_type))
       !! "tag:example.com,2024:nope" = None.
Proof.
  apply (proj1 (learn_type_validates new_Factory "tag:example.com,2024:nope"
                  unknown_type ltac:(vm_compute; reflexivity)) 1 SchemaError).
  - vm_compute. reflexivity.
  - apply le_n.
Defined.

(** ** Records *)

(** *** What the constructor establishes *)

Lemma rec_fields_known mk table fields known which known' which' :
  rec_fields mk table fields known which = Return (known', which') ->
  forall k : string,
    (k ∈ known' <-> k ∈ known \/ k ∈ fields)
    /\ (k ∈ dict_keys which' <-> k ∈ dict_keys which \/ k ∈ fields).
Proof.
  revert known which.
  induction fields as [|f fields IH]; intros known which H k; simpl in H.
  - injection H as <- <-. rewrite elem_of_nil. tauto.
  - destruct (bool_decide (f ∈ known)); [discriminate|].
    apply bind_Return in H as (d & _ & H).
    apply bind_Return in H as (s & _ & H).
    destruct (IH _ _ H k) as [H1 H2].
    rewrite H1, H2, dict_keys_set, elem_of_cons, elem_of_union,
      elem_of_singleton.
    tauto.
Qed.

Lemma rec_table_known mk schema which known known' table :
  rec_table mk schema which known = Return (known', table) ->
  forall k : string, k ∈ known' <-> k ∈ known \/ k ∈ dict_keys table.
Proof.
  unfold rec_table.
  destruct (dict_get schema which) as [[| | | | |fields]|]; try discriminate.
  - intros H k. destruct (rec_fields_known _ _ _ _ _ _ _ H k) as [H1 H2].
    rewrite H1, H2. simpl. rewrite elem_of_nil. tauto.
  - intros [= <- <-] k. simpl. rewrite elem_of_nil. tauto.
Qed.

Lemma RecType_init_known mk schema v :
  RecType_init mk schema = Return v -> known_ok v.
Proof.
  unfold RecType_init. intros H.
  apply bind_Return in H as (u & _ & H).
  apply bind_Return in H as (rest & _ & H).
  apply bind_Return in H as ([known1 req] & Hreq & H).
  apply bind_Return in H as ([known2 opt] & Hopt & H).
  injection H as <-. simpl in *. intros k.
  rewrite (rec_table_known _ _ _ _ _ _ Hopt k),
    (rec_table_known _ _ _ _ _ _ Hreq k), elem_of_empty.
  tauto.
Qed.

Ltac inv_head H :=
  repeat match type of H with
  | bind _ _ = Return _ => apply bind_Return in H as (? & _ & H)
  | (if ?c then _ else _) = Return _ => destruct c
  | Return _ = Return _ => injection H as <-
  | Raise _ = Return _ => discriminate H
  end.

Lemma construct_known_ok mk k schema v :
  construct mk k schema = Return v -> known_ok v.
Proof.
  destruct k; simpl; try apply RecType_init_known;
    unfold AllType_init, AnyType_init, ArrType_init, IntType_init,
      MapType_init, NumType_init, SeqType_init, StrType_init;
    intros H; inv_head H; exact I.
Qed.

Lemma make_schema_unfold (fuel : nat) (rx : Factory) (schema : value) :
  make_schema (S fuel) rx schema
  = match as_dict schema with
    | Some d =>
        type_name <- dict_item d "type" ;;
        uri <- expand_uri rx type_name ;;
        match type_registry rx !! uri with
        | None => Raise SchemaError
        | Some (Learned learned) =>
            require (keys_within ["type"] d) SchemaError ;;;
            make_schema fuel rx learned
        | Some (TypeClass type_class) =>
            construct (make_schema fuel rx) type_class d
        end
    | None => Raise SchemaError
    end.
Proof. destruct schema; reflexivity. Qed.

Lemma make_schema_known_ok fuel rx schema v :
  make_schema fuel rx schema = Return v -> known_ok v.
Proof.
  revert schema. induction fuel as [|fuel IH]; intros schema H; [discriminate|].
  rewrite make_schema_unfold in H.
  destruct (as_dict schema) as [d|]; [|discriminate].
  apply bind_Return in H as (tn & _ & H).
  apply bind_Return in H as (u & _ & H).
  destruct (type_registry rx !! u) as [[k|learned]|]; [| |discriminate].
  - eapply construct_known_ok; eauto.
  - apply bind_Return in H as (? & _ & H). eauto.
Qed.

Lemma compiled_known_ok (v : validator) : compiled v -> known_ok v.
Proof. intros (fuel & rx & schema & H). eapply make_schema_known_ok; eauto. Qed.

(** *** The sub-mapping of the unknown keys *)

Lemma filter_ext_in {A} (P Q : A -> Prop) {Pdec : forall x, Decision (P x)}
    {Qdec : forall x, Decision (Q x)} (l : list A) :
  (forall x, x ∈ l -> (P x <-> Q x)) -> filter P l = filter Q l.
Proof.
  induction l as [|x l IH]; intros H; [reflexivity|].
  rewrite !filter_cons.
  rewrite IH by (intros y Hy; apply H; now right).
  pose proof (H x (list_elem_of_here _ _)) as Hx.
  destruct (decide (P x)) as [HP|HP], (decide (Q x)) as [HQ|HQ];
    try reflexivity; tauto.
Qed.

Lemma dict_set_fresh {V} (d : list (string * V)) (k : string) (v : V) :
  k ∉ dict_keys d -> dict_set d k v = d ++ [(k, v)].
Proof.
  induction d as [|[k' v'] d IH]; simpl; [reflexivity|].
  rewrite not_elem_of_cons. intros [Hne Hk].
  destruct (String.eqb_spec k' k); [congruence|]. now rewrite IH.
Qed.

Lemma dict_get_app_fresh {V} (d1 d2 : list (string * V)) (k : string) :
  k ∉ dict_keys d1 -> dict_get (d1 ++ d2) k = dict_get d2 k.
Proof.
  induction d1 as [|[k' v'] d1 IH]; simpl; [reflexivity|].
  rewrite not_elem_of_cons. intros [Hne Hk].
  destruct (String.eqb_spec k' k); [congruence|]. now apply IH.
Qed.

Lemma dict_get_here {V} (d : list (string * V)) (k : string) (v : V) :
  dict_get ((k, v) :: d) k = Some v.
Proof. simpl. now rewrite String.eqb_refl. Qed.

Lemma dict_keys_filter {V} (P : string * V -> Prop)
    {Pdec : forall p, Decision (P p)} (d : list (string * V)) (k : string) :
  k ∈ dict_keys (filter P d) -> k ∈ dict_keys d.
Proof.
  unfold dict_keys. rewrite !map_is_fmap, !list_elem_of_fmap.
  intros (p & -> & Hp). apply list_elem_of_filter in Hp as [_ Hp]. eauto.
Qed.

(** The dictionary comprehension of [RecType.check], run over the selected
    keys of a dictionary, builds the dictionary filtered by its keys. *)
Lemma restrict_filter (P : string -> Prop) {Pdec : forall k, Decision (P k)}
    (d1 d2 : list (string * value)) :
  NoDup (dict_keys (d1 ++ d2)) ->
  restrict (d1 ++ d2) (filter P (dict_keys d2)) (filter (fun p => P p.1) d1)
  = Return (filter (fun p => P p.1) (d1 ++ d2)).
Proof.
  revert d1. induction d2 as [|[k v] d2 IH]; intros d1 Hnd.
  - simpl. now rewrite app_nil_r.
  - assert (k ∉ dict_keys d1) as Hk.
    { unfold dict_keys in *. rewrite map_app in Hnd. simpl in Hnd.
      apply NoDup_app in Hnd as (_ & Hnd & _). intros Hin.
      apply (Hnd k Hin). now left. }
    specialize (IH (d1 ++ [(k, v)])). rewrite <- app_assoc in IH. simpl in IH.
    specialize (IH Hnd). rewrite filter_app in IH.
    simpl dict_keys. rewrite filter_cons.
    destruct (decide (P k)) as [HP|HP].
    + simpl. unfold dict_item. rewrite (dict_get_app_fresh _ _ _ Hk), dict_get_here.
      simpl. rewrite dict_set_fresh.
      * rewrite (filter_cons_True (fun p => P p.1)) in IH by exact HP. exact IH.
      * intros Hin. apply Hk. eapply dict_keys_filter; eauto.
    + rewrite (filter_cons_False (fun p => P p.1)) in IH by exact HP.
      rewrite filter_nil, app_nil_r in IH. exact IH.
Qed.

Lemma restrict_unknown (P : string -> Prop) {Pdec : forall k, Decision (P k)}
    (d : list (string * value)) :
  NoDup (dict_keys d) ->
  restrict d (filter P (dict_keys d)) []
  = Return (submapping d (filter P (dict_keys d))).
Proof.
  intros Hnd. rewrite (restrict_filter P [] d Hnd). simpl. f_equal.
  unfold submapping. apply filter_ext_in. intros [k v] Hin. simpl.
  rewrite list_elem_of_filter. split; [|tauto]. intros HP. split; [exact HP|].
  unfold dict_keys. rewrite map_is_fmap. apply list_elem_of_fmap. now exists (k, v).
Qed.

(** *** The two loops over the fields *)

Lemma required_loop (required : list (string * validator))
    (d : list (string * value)) :
  py_all
    (fun field =>
       if negb (dict_in field d) then Return false
       else s <- dict_item (bound_checks required) field ;;
            x <- dict_item d field ;; s x)
    (dict_keys (bound_checks required)) = Return true
  <-> forall field s, dict_get required field = Some s ->
        exists x, dict_get d field = Some x /\ check s x = Return true.
Proof.
  unfold bound_checks. rewrite py_all_true, Forall_forall, dict_keys_map.
  unfold dict_item, dict_in. split.
  - intros H field s Hs.
    assert (field ∈ dict_keys required) as Hin
      by (apply dict_in_keys, dict_in_get; eauto).
    specialize (H field Hin). rewrite dict_get_map, Hs in H. simpl in H.
    destruct (dict_get d field) as [x|]; [|discriminate]. eauto.
  - intros H field Hin.
    apply dict_in_keys, dict_in_get in Hin as [s Hs].
    destruct (H field s Hs) as (x & Hx & Hc).
    now rewrite dict_get_map, Hs, Hx.
Qed.

Lemma optional_loop (optional : list (string * validator))
    (d : list (string * value)) :
  py_all
    (fun field =>
       if negb (dict_in field d) then Return true
       else s <- dict_item (bound_checks optional) field ;;
            x <- dict_item d field ;; s x)
    (dict_keys (bound_checks optional)) = Return true
  <-> forall field s x, dict_get optional field = Some s ->
        dict_get d field = Some x -> check s x = Return true.
Proof.
  unfold bound_checks. rewrite py_all_true, Forall_forall, dict_keys_map.
  unfold dict_item, dict_in. split.
  - intros H field s x Hs Hx.
    assert (field ∈ dict_keys optional) as Hin
      by (apply dict_in_keys, dict_in_get; eauto).
    specialize (H field Hin). now rewrite dict_get_map, Hs, Hx in H.
  - intros H field Hin.
    apply dict_in_keys, dict_in_get in Hin as [s Hs].
    rewrite dict_get_map, Hs.
    destruct (dict_get d field) as [x|] eqn:Hx; [|reflexivity].
    simpl. eauto.
Qed.

(** *** [RecType.check] on a dictionary *)

Arguments restrict : simpl never.

Lemma RecType_check_dict known rest required optional
    (d : list (string * value)) :
  known_ok (RecType known rest required optional) ->
  NoDup (dict_keys d) ->
  check (RecType known rest required optional) (VDict d) = Return true
  <-> (unknown_keys required optional d = [] \/ is_Some rest) /\
      (forall field s, dict_get required field = Some s ->
         exists x, dict_get d field = Some x /\ check s x = Return true) /\
      (forall field s x, dict_get optional field = Some s ->
         dict_get d field = Some x -> check s x = Return true) /\
      (unknown_keys required optional d <> [] ->
         exists s, rest = Some s /\
           check s (VDict (submapping d (unknown_keys required optional d)))
           = Return true).
Proof.
  intros Hknown Hnd. simpl in Hknown.
  rewrite <- required_loop, <- optional_loop.
  assert (filter (fun k => k ∉ known) (dict_keys d)
          = unknown_keys required optional d) as Hunknown.
  { apply list_filter_iff. intros k. rewrite Hknown. tauto. }
  pose proof (restrict_unknown
                (fun k => (k ∉ dict_keys required) /\ (k ∉ dict_keys optional))
                d Hnd) as Hrestrict.
  fold (unknown_keys required optional d) in Hrestrict.
  simpl. unfold RecType_check. fold (bound_checks required) (bound_checks optional).
  rewrite Hunknown.
  destruct (unknown_keys required optional d) as [|k unknown] eqn:Hu.
  - simpl. rewrite bind_Return. split.
    + intros ([] & Hreq & H); [|discriminate]. simpl in H.
      apply bind_Return in H as ([] & Hopt & H); [|discriminate].
      repeat split; auto. congruence.
    + intros (_ & Hreq & Hopt & _). exists true. split; [exact Hreq|].
      simpl. now rewrite Hopt.
  - destruct rest as [r|]; simpl.
    + rewrite bind_Return. split.
      * intros ([] & Hreq & H); [|discriminate]. simpl in H.
        apply bind_Return in H as ([] & Hopt & H); [|discriminate]. simpl in H.
        rewrite Hrestrict in H. simpl in H.
        apply bind_Return in H as ([] & Hr & H); [|discriminate].
        repeat split; eauto.
      * intros (_ & Hreq & Hopt & Hrest). exists true. split; [exact Hreq|].
        simpl. rewrite Hopt. simpl. rewrite Hrestrict. simpl.
        destruct Hrest as (s & [= <-] & Hs); [discriminate|]. now rewrite Hs.
    + split; [discriminate|]. intros ([[=] | [s [=]]] & _).
Qed.

(** C2: a compiled [rec] validator accepts a value exactly when the value
    is a dictionary; its keys that are neither required nor optional fields
    are none, or a [rest] schema was given; every required field is present
    and satisfies its schema; every optional field that is present
    satisfies its schema; and, when there are unknown keys, the dictionary
    restricted to them satisfies [rest].  (The keys of a dictionary are
    distinct.)  The schema [{type: //rec, required: {a: //int}, optional:
    {b: //str}}] accepts [{a: 1}] and rejects [{a: 1, c: 2}], which is
    accepted once [rest: {type: //any}] is added. *)
Theorem RecType_check_spec :
  (forall known rest required optional (v : value),
      compiled (RecType known rest required optional) ->
      (forall d, v = VDict d -> NoDup (dict_keys d)) ->
      (check (RecType known rest required optional) v = Return true
       <-> exists d, v = VDict d /\
             (unknown_keys required optional d = [] \/ is_Some rest) /\
             (forall field s, dict_get required field = Some s ->
                exists x, dict_get d field = Some x /\ check s x = Return true) /\
             (forall field s x, dict_get optional field = Some s ->
                dict_get d field = Some x -> check s x = Return true) /\
             (unknown_keys required optional d <> [] ->
                exists s, rest = Some s /\
                  check s (VDict (submapping d (unknown_keys required optional d)))
                  = Return true)))
  /\ (exists s, make_schema 2 new_Factory rec_closed = Return s /\
        check s (VDict [("a", VInt 1)]) = Return true /\
        check s (VDict [("a", VInt 1); ("c", VInt 2)]) = Return false)
  /\ (exists s, make_schema 2 new_Factory rec_open = Return s /\
        check s (VDict [("a", VInt 1); ("c", VInt 2)]) = Return true).
Proof.
  split; [|split].
  - intros known rest required optional v Hc Hv.
    apply compiled_known_ok in Hc.
    destruct v as [|n|s|l|l|d];
      try (split; [discriminate | intros (d & [=] & _)]).
    rewrite (RecType_check_dict _ _ _ _ d Hc (Hv d eq_refl)). split.
    + intros H. exists d. split; [reflexivity | exact H].
    + intros (d' & [= <-] & H). exact H.
  - eexists. split; [vm_compute; reflexivity|]. split; vm_compute; reflexivity.
  - eexists. split; [vm_compute; reflexivity|]. vm_compute; reflexivity.
Qed.

Lemma RecType_check_spec_witness :
  check rec_closed_validator (VDict [("a", VInt 1)]) = Return true
  <-> exists d, VDict [("a", VInt 1)] = VDict d /\
        (unknown_keys [("a", IntType None None)] [("b", StrType None None)] d
         = [] \/ is_Some (@None validator)) /\
        (forall field s, dict_get [("a", IntType None None)] field = Some s ->
           exists x, dict_get d field = Some x /\ check s x = Return true) /\
        (forall field s x, dict_get [("b", StrType None None)] field = Some s ->
           dict_get d field = Some x -> check s x = Return true) /\
        (unknown_keys [("a", IntType None None)] [("b", StrType None None)] d
         <> [] ->
           exists s, @None validator = Some s /\
             check s (VDict (submapping d
               (unknown_keys [("a", IntType None None)]
                  [("b", StrType None None)] d)))
             = Return true).
Proof.
  apply (proj1 RecType_check_spec).
  - exists 2, new_Factory, rec_closed. vm_compute. reflexivity.
  - intros d [= <-]. apply NoDup_singleton.
Defined.

(** ** Where [check] answers

    The checks that raise all involve a complex number or a range whose
    bounds have no order.  Without them [check] returns a boolean. *)

Lemma forallb_elem_of {A} (f : A -> bool) (l : list A) :
  forallb f l = true <-> forall x, x ∈ l -> f x = true.
Proof.
  induction l as [|a l IH]; simpl.
  - split; [intros _ x Hx; inversion Hx | reflexivity].
  - rewrite andb_true_iff, IH. split.
    + intros [Ha Hl] x [->|Hx]%elem_of_cons; auto.
    + intros H. split; [apply H; now left | intros x Hx; apply H; now right].
Qed.

Lemma py_all_total {A} (f : A -> outcome bool) (l : list A) :
  (forall a, a ∈ l -> exists b, f a = Return b) ->
  exists b, py_all f l = Return b.
Proof.
  induction l as [|a l IH]; intros H; simpl; [eauto|].
  destruct (H a (list_elem_of_here _ _)) as [[] ->]; simpl; [|eauto].
  apply IH. intros a' Ha'. apply H. now right.
Qed.

Lemma py_any_total {A} (f : A -> outcome bool) (l : list A) :
  (forall a, a ∈ l -> exists b, f a = Return b) ->
  exists b, py_any f l = Return b.
Proof.
  induction l as [|a l IH]; intros H; simpl; [eauto|].
  destruct (H a (list_elem_of_here _ _)) as [[] ->]; simpl; [eauto|].
  apply IH. intros a' Ha'. apply H. now right.
Qed.

Lemma and_then_total (a c : outcome bool) :
  (exists b, a = Return b) -> (exists b, c = Return b) ->
  exists b, a &&& c = Return b.
Proof. intros [[] ->] [b ->]; simpl; eauto. Qed.

Lemma plain_number_real (n : number) : plain_number n = is_real n.
Proof. now destruct n. Qed.

Lemma plain_bounds_real (d : list (string * value)) :
  plain_bounds d = true -> real_bounds d = true.
Proof.
  unfold plain_bounds, real_bounds.
  induction (dict_values d) as [|b l IH]; simpl; [reflexivity|].
  intros [Hb Hl]%andb_true_iff. rewrite (IH Hl), andb_true_r.
  destruct b as [|n| | | |]; try discriminate. now rewrite <- plain_number_real.
Qed.

Lemma none_or_range_total (rng : option Util.range_check) (n : number) :
  plain_range rng = true -> plain_number n = true ->
  exists b, none_or_range rng n = Return b.
Proof.
  destruct rng as [[[| | | | |d]]|]; simpl; try discriminate; [|eauto].
  intros Hd Hn. apply check_range_total.
  - now apply plain_bounds_real.
  - now rewrite <- plain_number_real.
Qed.

Lemma dict_get_elem_of {V} (d : list (string * V)) (k : string) (v : V) :
  dict_get d k = Some v -> (k, v) ∈ d.
Proof.
  induction d as [|[k' v'] d IH]; simpl; [discriminate|].
  destruct (String.eqb_spec k' k) as [->|Hne].
  - intros [= ->]. now left.
  - intros H. right. now apply IH.
Qed.

Lemma dict_set_forall {V} (f : string * V -> bool) (d : list (string * V))
    (k : string) (v : V) :
  forallb f d = true -> (forall k', f (k', v) = true) ->
  forallb f (dict_set d k v) = true.
Proof.
  intros Hd Hv. induction d as [|[k' v'] d IH]; simpl in *.
  - now rewrite Hv.
  - apply andb_true_iff in Hd as [H1 H2].
    destruct (String.eqb k' k); simpl; rewrite ?Hv, ?H1, ?H2; auto.
Qed.

Lemma restrict_total (d : list (string * value)) (ks : list string)
    (acc : list (string * value)) :
  (forall k, k ∈ ks -> k ∈ dict_keys d) ->
  plain (VDict d) = true -> plain (VDict acc) = true ->
  exists rest, restrict d ks acc = Return rest /\ plain (VDict rest) = true.
Proof.
  intros Hks Hd. revert acc.
  induction ks as [|k ks IH]; intros acc Hacc; [simpl; eauto|].
  assert (k ∈ dict_keys d) as Hk by (apply Hks; now left).
  apply dict_in_keys, dict_in_get in Hk as [x Hx].
  unfold restrict; fold restrict. unfold dict_item. rewrite Hx. simpl bind.
  apply IH.
  - intros k' Hk'. apply Hks. now right.
  - simpl in *. apply dict_set_forall; [exact Hacc|]. intros k'. simpl.
    apply dict_get_elem_of in Hx.
    exact (proj1 (forallb_elem_of _ d) Hd (k, x) Hx).
Qed.

Lemma plain_is_real (n : number) :
  plain_number n = true -> is_real n = true.
Proof. now destruct n. Qed.

Lemma mod_one_total (n : number) :
  is_real n = true -> exists m, mod_one n = Return m.
Proof. destruct n as [b|z|[q|s|]|re im]; simpl; try discriminate; eauto. Qed.

Lemma field_loop_total (absent : bool) (fields : list (string * validator))
    (d : list (string * value)) :
  Forall (fun p => forall x, plain x = true ->
                     exists b, check p.2 x = Return b) fields ->
  plain (VDict d) = true ->
  exists b,
    py_all
      (fun field =>
         if negb (dict_in field d) then Return absent
         else s <- dict_item (bound_checks fields) field ;;
              x <- dict_item d field ;; s x)
      (dict_keys (bound_checks fields)) = Return b.
Proof.
  intros IH Hd. apply py_all_total. intros field Hin.
  unfold bound_checks in *. rewrite dict_keys_map in Hin.
  apply dict_in_keys, dict_in_get in Hin as [s Hs].
  unfold dict_in, dict_item. rewrite dict_get_map, Hs.
  destruct (dict_get d field) as [x|] eqn:Hx; simpl; [|eauto].
  apply dict_get_elem_of in Hs, Hx.
  rewrite Forall_forall in IH. apply (IH (field, s) Hs).
  exact (proj1 (forallb_elem_of _ d) Hd (field, x) Hx).
Qed.

(** X26: [check] returns a boolean, and does not raise, when every number
    in the value is a [bool], an [int] or a [float], every range of the
    validator is a dictionary whose bounds are such numbers, and so is
    every fixed value of an [int] or a [num].  The classes are named on
    purpose: a complex number has no ordering, and an instance of another
    [Number] class brings its own operators, which can raise (for a
    [decimal.Decimal] infinity, [value % 1] raises
    [decimal.InvalidOperation]). *)
Theorem check_total (v : validator) :
  plain_validator v = true ->
  forall x, plain x = true -> exists b, check v x = Return b.
Proof.
  induction v as [alts IH|alts IH|c len IH| | | |val rng|c IH| |val rng|
                  |known rest required optional IHrest IHreq IHopt
                  |cs tail IHcs IHtail|val len] using validator_induction;
    intros Hv x Hx; simpl in Hv; simpl check.
  - (* all *)
    unfold AllType_check. rewrite py_all_map. apply py_all_total.
    intros s Hs. rewrite Forall_forall in IH.
    apply (IH s Hs); [|exact Hx]. exact (proj1 (forallb_elem_of _ _) Hv s Hs).
  - (* any *)
    unfold AnyType_check. destruct alts as [l|]; simpl; [|eauto].
    rewrite py_any_map. apply py_any_total. intros s Hs.
    specialize (IH l eq_refl). rewrite Forall_forall in IH.
    apply (IH s Hs); [|exact Hx]. exact (proj1 (forallb_elem_of _ _) Hv s Hs).
  - (* arr *)
    apply andb_true_iff in Hv as [Hc Hlen]. unfold ArrType_check.
    assert (forall items, forallb plain items = true ->
              exists b, none_or_range len (NInt (Z.of_nat (length items)))
                        &&& py_all (check c) items = Return b) as Hitems.
    { intros items Hitems. apply and_then_total.
      - now apply none_or_range_total.
      - apply py_all_total. intros y Hy. apply (IH Hc).
        exact (proj1 (forallb_elem_of _ _) Hitems y Hy). }
    destruct x; simpl in Hx; eauto.
  - unfold BoolType_check. eauto.
  - unfold DefType_check. eauto.
  - unfold FailType_check. eauto.
  - (* int *)
    apply andb_true_iff in Hv as [_ Hrng].
    unfold IntType_check. destruct x as [|n| | | |]; eauto.
    simpl in Hx. repeat apply and_then_total; eauto.
    + destruct (mod_one_total n (plain_is_real n Hx)) as [m ->]. simpl. eauto.
    + now apply none_or_range_total.
  - (* map *)
    unfold MapType_check. destruct x as [| | | | |d]; eauto.
    apply py_all_total. intros y Hy. apply (IH Hv).
    unfold dict_values in Hy. rewrite map_is_fmap in Hy.
    apply list_elem_of_fmap in Hy as ([k y'] & -> & Hin).
    exact (proj1 (forallb_elem_of _ d) Hx (k, y') Hin).
  - unfold NilType_check. eauto.
  - (* num *)
    apply andb_true_iff in Hv as [_ Hrng].
    unfold NumType_check. destruct x as [|n| | | |]; eauto.
    simpl in Hx. repeat apply and_then_total; eauto.
    now apply none_or_range_total.
  - unfold OneType_check. eauto.
  - (* rec *)
    apply andb_true_iff in Hv as [[Hrest Hreq]%andb_true_iff Hopt].
    unfold RecType_check. destruct x as [| | | | |d]; eauto.
    fold (bound_checks required) (bound_checks optional).
    set (unknown := filter (fun k => k ∉ known) (dict_keys d)).
    assert (forall k, k ∈ unknown -> k ∈ dict_keys d) as Hunknown.
    { intros k Hk. now apply list_elem_of_filter in Hk as [_ Hk]. }
    destruct (field_loop_total false required d) as [breq ->]; [|exact Hx|].
    { rewrite Forall_forall in *. intros p Hp. apply (IHreq p Hp).
      exact (proj1 (forallb_elem_of _ _) Hreq p Hp). }
    destruct (field_loop_total true optional d) as [bopt ->]; [|exact Hx|].
    { rewrite Forall_forall in *. intros p Hp. apply (IHopt p Hp).
      exact (proj1 (forallb_elem_of _ _) Hopt p Hp). }
    clearbody unknown. destruct unknown as [|k ks].
    + simpl. destruct breq, bopt; simpl; eauto.
    + destruct rest as [s|]; simpl; [|eauto].
      destruct breq; simpl; [|eauto]. destruct bopt; simpl; [|eauto].
      destruct (restrict_total d (k :: ks) [] Hunknown Hx eq_refl)
        as (r & -> & Hr).
      simpl. destruct (IHrest s eq_refl Hrest (VDict r) Hr) as [[] ->];
        simpl; eauto.
  - (* seq *)
    apply andb_true_iff in Hv as [Hcs Htail]. unfold SeqType_check.
    assert (forall items, forallb plain items = true ->
              (length cs <= length items)%nat ->
              exists b,
                py_all (fun i => s <- index (map check cs) i ;;
                                 x <- index items i ;; s x)
                  (seq 0 (length (map check cs))) = Return b) as Hpos.
    { intros items Hitems Hlen. apply py_all_total. intros i Hi.
      rewrite length_map in Hi. apply elem_of_seq in Hi.
      destruct (lookup_lt_is_Some_2 cs i) as [s Hs]; [lia|].
      destruct (lookup_lt_is_Some_2 items i) as [y Hy]; [lia|].
      rewrite index_map_check, Hs. simpl. unfold index. rewrite Hy.
      rewrite Forall_forall in IHcs.
      apply list_elem_of_lookup_2 in Hs, Hy.
      apply (IHcs s Hs).
      - exact (proj1 (forallb_elem_of _ _) Hcs s Hs).
      - exact (proj1 (forallb_elem_of _ _) Hitems y Hy). }
    assert (forall items, forallb plain items = true ->
              forallb plain (drop (length (map check cs)) items) = true)
      as Hdrop.
    { intros items Hitems. apply forallb_elem_of. intros y Hy.
      apply list_elem_of_lookup_1 in Hy as [i Hi]. rewrite lookup_drop in Hi.
      apply list_elem_of_lookup_2 in Hi.
      exact (proj1 (forallb_elem_of _ _) Hitems y Hi). }
    destruct x as [| | |items|items|]; eauto; simpl in Hx;
      (destruct (Nat.ltb_spec (length items) (length (map check cs)))
         as [Hlt|Hge]; [eauto|]);
      (destruct (Hpos items Hx) as [[] ->];
         [rewrite length_map in Hge; lia | | simpl; eauto]);
      simpl;
      (destruct (length (map check cs) <? length items)%nat; [|eauto]);
      (destruct tail as [t|]; simpl; [|eauto]).
    + destruct (IHtail t eq_refl Htail
                  (VList (drop (length (map check cs)) items)) (Hdrop items Hx))
        as [[] ->]; simpl; eauto.
    + destruct (IHtail t eq_refl Htail
                  (VTuple (drop (length (map check cs)) items)) (Hdrop items Hx))
        as [[] ->]; simpl; eauto.
  - (* str *)
    unfold StrType_check. destruct x as [| |s| | |]; eauto.
    apply and_then_total; [eauto|]. now apply none_or_range_total.
Qed.

(** * Further properties *)

(** ** [Util.indent] *)

Lemma append_cons (c : ascii) (a b : string) :
  String c a +:+ b = String c (a +:+ b).
Proof. reflexivity. Qed.

Lemma append_nil_l (a : string) : EmptyString +:+ a = a.
Proof. reflexivity. Qed.

Lemma append_nil_r (a : string) : a +:+ EmptyString = a.
Proof. induction a as [|c a IH]; [reflexivity|]. now rewrite append_cons, IH. Qed.

Lemma append_assoc (a b c : string) : (a +:+ b) +:+ c = a +:+ (b +:+ c).
Proof.
  induction a as [|x a IH]; [reflexivity|]. now rewrite !append_cons, IH.
Qed.

Lemma split_cons (text : string) : exists line lines, Util.split text = line :: lines.
Proof.
  induction text as [|c text (line & lines & IH)]; simpl; [eauto|].
  destruct (Ascii.eqb c Util.newline); [eauto|]. rewrite IH. eauto.
Qed.

(** Joining the pieces of a text gives the text back. *)
Lemma join_split (text : string) : Util.join (Util.split text) = text.
Proof.
  induction text as [|c text IH]; [reflexivity|]. simpl.
  destruct (Ascii.eqb_spec c Util.newline) as [->|Hc].
  - destruct (split_cons text) as (line & lines & H).
    rewrite H in *. change (Util.join (EmptyString :: line :: lines))
      with (EmptyString +:+ String Util.newline (Util.join (line :: lines))).
    now rewrite IH.
  - destruct (split_cons text) as (line & lines & H). rewrite H in *.
    destruct lines as [|l2 lines]; simpl in *; [now rewrite IH|].
    rewrite append_cons. now rewrite IH.
Qed.

Lemma no_newline_append (a b : string) :
  no_newline (a +:+ b) = no_newline a && no_newline b.
Proof.
  induction a as [|c a IH]; [reflexivity|].
  rewrite append_cons. simpl. now rewrite IH, andb_assoc.
Qed.

Lemma no_newline_times (whitespace : string) (level : Z) :
  no_newline whitespace = true -> no_newline (Util.times whitespace level) = true.
Proof.
  intros H. unfold Util.times.
  induction (Z.to_nat level) as [|n IH]; [reflexivity|].
  simpl. now rewrite no_newline_append, H, IH.
Qed.

(** A text without newlines, then the rest of a text: the first piece grows. *)
Lemma split_append (a text : string) :
  no_newline a = true ->
  Util.split (a +:+ text)
  = match Util.split text with
    | line :: lines => (a +:+ line) :: lines
    | [] => [a]
    end.
Proof.
  induction a as [|c a IH]; intros Ha.
  - rewrite append_nil_l. now destruct (split_cons text) as (l & ls & ->).
  - simpl in Ha. apply andb_true_iff in Ha as [Hc Ha].
    rewrite append_cons. simpl. apply negb_true_iff in Hc. rewrite Hc.
    rewrite (IH Ha). destruct (split_cons text) as (line & lines & ->).
    reflexivity.
Qed.

Lemma split_join (lines : list string) :
  lines <> [] -> forallb no_newline lines = true ->
  Util.split (Util.join lines) = lines.
Proof.
  induction lines as [|line lines IH]; intros Hne Hall; [congruence|].
  simpl in Hall. apply andb_true_iff in Hall as [Hline Hall].
  destruct lines as [|l2 lines].
  - simpl. rewrite <- (append_nil_r line) at 1.
    rewrite (split_append _ _ Hline). simpl. now rewrite append_nil_r.
  - change (Util.join (line :: l2 :: lines))
      with (line +:+ String Util.newline (Util.join (l2 :: lines))).
    rewrite (split_append _ _ Hline).
    change (Util.split (String Util.newline (Util.join (l2 :: lines))))
      with (EmptyString :: Util.split (Util.join (l2 :: lines))).
    cbv beta iota. rewrite append_nil_r. f_equal. now apply IH.
Qed.

Lemma split_no_newline (text : string) :
  forallb no_newline (Util.split text) = true.
Proof.
  induction text as [|c text IH]; [reflexivity|]. simpl.
  destruct (Ascii.eqb c Util.newline) eqn:Hc; [exact IH|].
  destruct (Util.split text) as [|line lines]; simpl in *; now rewrite ?Hc.
Qed.

Lemma times_add (whitespace : string) (a b : Z) :
  (0 <= a)%Z -> (0 <= b)%Z ->
  Util.times whitespace (a + b)
  = Util.times whitespace b +:+ Util.times whitespace a.
Proof.
  intros Ha Hb. unfold Util.times.
  rewrite Z.add_comm, Z2Nat.inj_add by assumption.
  induction (Z.to_nat b) as [|n IH]; [reflexivity|].
  simpl. now rewrite IH, append_assoc.
Qed.

(** X1: when the whitespace has no newline, [indent] keeps the lines of the
    text and puts the whitespace, [level] times, in front of each one. *)
Theorem indent_lines (text : string) (level : Z) (whitespace : string) :
  no_newline whitespace = true ->
  Util.split (Util.indent text level whitespace)
  = map (fun line => Util.times whitespace level +:+ line) (Util.split text).
Proof.
  intros Hw. unfold Util.indent. apply split_join.
  - destruct (split_cons text) as (line & lines & ->). discriminate.
  - pose proof (split_no_newline text) as H.
    induction (Util.split text) as [|line lines IH]; [reflexivity|].
    simpl in *. apply andb_true_iff in H as [H1 H2].
    now rewrite no_newline_append, (no_newline_times _ _ Hw), H1, IH.
Qed.

Lemma indent_lines_witness :
  Util.split (Util.indent (String "a" (String Util.newline "b")) 2 " ")
  = map (fun line => Util.times " " 2 +:+ line)
      (Util.split (String "a" (String Util.newline "b"))).
Proof. apply indent_lines. reflexivity. Defined.

(** X2: indenting by [a] levels and then by [b] levels is indenting by
    [a + b] levels, when the whitespace has no newline and the levels are
    not negative; a level that is not positive, or an empty whitespace,
    leaves the text as it is. *)
Theorem indent_compose :
  (forall (text : string) (a b : Z) (whitespace : string),
      no_newline whitespace = true -> (0 <= a)%Z -> (0 <= b)%Z ->
      Util.indent (Util.indent text a whitespace) b whitespace
      = Util.indent text (a + b) whitespace)
  /\ (forall (text : string) (level : Z) (whitespace : string),
        (level <= 0)%Z \/ whitespace = EmptyString ->
        Util.indent text level whitespace = text).
Proof.
  split.
  - intros text a b ws Hw Ha Hb.
    unfold Util.indent at 1. rewrite (indent_lines text a ws Hw).
    unfold Util.indent. f_equal. rewrite map_map. apply map_ext.
    intros line. now rewrite times_add, append_assoc.
  - intros text level ws H. unfold Util.indent.
    assert (Util.times ws level = EmptyString) as ->.
    { unfold Util.times. destruct H as [H | ->].
      - now rewrite Z2Nat.nonpos.
      - induction (Z.to_nat level) as [|n IH]; [reflexivity|]. exact IH. }
    rewrite <- (join_split text) at 2. f_equal.
    induction (Util.split text) as [|line lines IH]; [reflexivity|].
    simpl. now rewrite IH.
Qed.

Lemma indent_compose_witness :
  Util.indent (Util.indent "a" 1 "  ") 2 "  " = Util.indent "a" (1 + 2) "  ".
Proof. apply (proj1 indent_compose); [reflexivity | lia | lia]. Defined.

(** ** [Util.make_range_check] and [check_range] *)

(** X3: on a dictionary [make_range_check] returns the predicate over that
    dictionary when every key is one of min, max, min-ex, max-ex and no side
    has both its bounds, and raises [ValueError] otherwise; on [None] and on
    a number it raises [TypeError]. *)
Theorem make_range_check_cases :
  (forall d : list (string * value),
      Util.make_range_check (VDict d)
      = if keys_within ["min"; "max"; "min-ex"; "max-ex"] d
           && negb (dict_in "min" d && dict_in "min-ex" d)
           && negb (dict_in "max" d && dict_in "max-ex" d)
        then Return (Util.RangeCheck (VDict d))
        else Raise ValueError)
  /\ Util.make_range_check VNone = Raise TypeError
  /\ (forall n, Util.make_range_check (VNum n) = Raise TypeError).
Proof.
  split; [|split; reflexivity].
  intros d. unfold Util.make_range_check.
  rewrite issuperset_dict.
  destruct (keys_within _ d); simpl; [|reflexivity].
  rewrite issubset_dict.
  destruct (dict_in "min" d && dict_in "min-ex" d); simpl; [reflexivity|].
  rewrite issubset_dict.
  now destruct (dict_in "max" d && dict_in "max-ex" d).
Qed.

Lemma check_range_finite (d : list (string * value)) (x : number) :
  number_bounds d = true ->
  Util.check_range (Util.RangeCheck (VDict d)) x = Return true -> finite x.
Proof.
  intros Hd H. apply (check_range_spec d x Hd) in H as (_ & _ & Hgt & Hlt).
  unfold num_gt, num_lt, num_cmp, finite in *.
  destruct (to_real x) as [[q|[]|]|]; try discriminate; eauto.
  - destruct (to_real (bound d "min-ex" neg_inf)) as [[|[]|]|]; discriminate.
  - destruct (to_real (bound d "max-ex" inf)) as [[|[]|]|]; discriminate.
  - destruct (to_real (bound d "min-ex" neg_inf)) as [[|[]|]|]; discriminate.
Qed.

(** X4: a range check whose bounds are numbers is true of finite real
    numbers only: it rejects NaN, both infinities and the complex numbers,
    whatever the bounds.  The range check without bounds is true of exactly
    the finite real numbers. *)
Theorem check_range_finite_only :
  (forall (d : list (string * value)) (x : number),
      number_bounds d = true ->
      Util.check_range (Util.RangeCheck (VDict d)) x = Return true ->
      finite x)
  /\ (forall x : number,
        Util.check_range (Util.RangeCheck (VDict [])) x = Return true
        <-> finite x)
  /\ Util.check_range (Util.RangeCheck (VDict [])) (NFloat inf) = Return false
  /\ Util.check_range (Util.RangeCheck (VDict [])) (NFloat neg_inf) = Return false
  /\ Util.check_range (Util.RangeCheck (VDict [])) (NFloat FNan) = Return false.
Proof.
  split; [exact check_range_finite|].
  split; [|repeat split].
  intros x. split; [now apply check_range_finite|].
  intros [q Hq]. unfold Util.check_range, Util.r_get, Util.compare; simpl.
  unfold num_le, num_ge, num_lt, num_gt, num_cmp; simpl. now rewrite Hq.
Qed.

Lemma check_range_finite_only_witness :
  finite (NInt 3).
Proof.
  apply (proj1 check_range_finite_only range_0_10 (NInt 3)); reflexivity.
Defined.

(** X5: at a finite bound itself, the inclusive bounds [min] and [max]
    accept and the exclusive bounds [min-ex] and [max-ex] reject. *)
Theorem check_range_at_bound (q : Q) :
  Util.check_range (one_bound "min" q) (NFloat (FFin q)) = Return true
  /\ Util.check_range (one_bound "max" q) (NFloat (FFin q)) = Return true
  /\ Util.check_range (one_bound "min-ex" q) (NFloat (FFin q)) = Return false
  /\ Util.check_range (one_bound "max-ex" q) (NFloat (FFin q)) = Return false.
Proof.
  assert (Qle_bool q q = true) as Hq by (apply Qle_bool_iff, Qle_refl).
  unfold one_bound, Util.check_range, Util.r_get, Util.compare; simpl.
  unfold num_le, num_ge, num_lt, num_gt, num_cmp; simpl.
  rewrite !Hq. repeat split.
Qed.

(** ** [Factory.expand_uri] *)

Lemma span_append (p : ascii -> bool) (a b : string) :
  all_chars p a = true ->
  match b with EmptyString => True | String c _ => p c = false end ->
  span p (a +:+ b) = (a, b).
Proof.
  intros Ha Hb. induction a as [|c a IH].
  - rewrite append_nil_l. destruct b as [|c b]; [reflexivity|].
    simpl. now rewrite Hb.
  - simpl in Ha. apply andb_true_iff in Ha as [Hc Ha].
    rewrite append_cons. simpl. now rewrite Hc, (IH Ha).
Qed.

Lemma match_scheme_name (scheme rest : string) :
  scheme <> EmptyString -> all_chars is_word scheme = true ->
  match_scheme (scheme +:+ String ":" rest) = true.
Proof.
  intros Hne Hw. unfold match_scheme.
  rewrite (span_append is_word scheme (String ":" rest) Hw) by reflexivity.
  now destruct scheme.
Qed.

Lemma match_shorthand_name (prefix suffix tail : string) :
  all_chars is_name prefix = true -> all_chars is_name suffix = true ->
  suffix <> EmptyString ->
  tail = EmptyString \/ tail = String Util.newline EmptyString ->
  match_shorthand (shorthand prefix (suffix +:+ tail)) = Some (prefix, suffix).
Proof.
  intros Hp Hs Hne Htail. unfold match_shorthand, shorthand.
  rewrite (span_append is_name prefix _ Hp) by reflexivity.
  rewrite (span_append is_name suffix tail Hs)
    by (destruct Htail as [-> | ->]; reflexivity).
  destruct suffix as [|c suffix]; [congruence|].
  now destruct Htail as [-> | ->].
Qed.

(** X6: a type name that starts with a scheme (word characters, then a
    colon) is returned as it is, whatever the prefixes registered; the URIs
    of the core types are such names. *)
Theorem expand_uri_absolute :
  (forall (rx : Factory) (scheme rest : string),
      scheme <> EmptyString -> all_chars is_word scheme = true ->
      expand_uri rx (VStr (scheme +:+ String ":" rest))
      = Return (scheme +:+ String ":" rest))
  /\ (forall (rx : Factory) (k : kind),
        expand_uri rx (VStr (uri k)) = Return (uri k)).
Proof.
  split.
  - intros rx scheme rest Hne Hw. unfold expand_uri.
    now rewrite (match_scheme_name scheme rest Hne Hw).
  - intros rx k. unfold expand_uri.
    assert (match_scheme (uri k) = true) as -> by now destruct k.
    reflexivity.
Qed.

Lemma expand_uri_absolute_witness :
  expand_uri new_Factory (VStr ("http" +:+ String ":" "//example.com/t"))
  = Return ("http" +:+ String ":" "//example.com/t").
Proof.
  apply (proj1 expand_uri_absolute); [discriminate | reflexivity].
Defined.

Lemma expand_uri_expansion (rx : Factory) (prefix suffix tail : string) :
  all_chars is_name prefix = true -> all_chars is_name suffix = true ->
  suffix <> EmptyString ->
  tail = EmptyString \/ tail = String Util.newline EmptyString ->
  expand_uri rx (VStr (shorthand prefix (suffix +:+ tail)))
  = expansion rx prefix suffix.
Proof.
  intros Hp Hs Hne Htail. unfold expand_uri, expansion.
  change (match_scheme (shorthand prefix ?s)) with false.
  now rewrite (match_shorthand_name prefix suffix tail Hp Hs Hne Htail).
Qed.

(** X7: the shorthand [/prefix/suffix], written with the characters of
    [[-._a-z0-9]] and a non-empty suffix, expands to the base registered for
    the prefix followed by the suffix; for a prefix that is not registered
    [expand_uri] raises [ValueError] (the message of the [KeyError] it means
    to raise cannot be formatted).  A newline at the end of the name is
    accepted and dropped. *)
Theorem expand_uri_shorthand (rx : Factory) (prefix suffix : string) :
  all_chars is_name prefix = true -> all_chars is_name suffix = true ->
  suffix <> EmptyString ->
  expand_uri rx (VStr (shorthand prefix suffix)) = expansion rx prefix suffix
  /\ expand_uri rx
       (VStr (shorthand prefix (suffix +:+ String Util.newline EmptyString)))
     = expansion rx prefix suffix.
Proof.
  intros Hp Hs Hne. split.
  - rewrite <- (append_nil_r suffix) at 1.
    apply expand_uri_expansion; auto.
  - apply expand_uri_expansion; auto.
Qed.

Lemma expand_uri_shorthand_witness :
  expand_uri new_Factory (VStr (shorthand ".meta" "schema"))
  = expansion new_Factory ".meta" "schema"
  /\ expand_uri new_Factory
       (VStr (shorthand ".meta" ("schema" +:+ String Util.newline EmptyString)))
     = expansion new_Factory ".meta" "schema".
Proof.
  apply expand_uri_shorthand; [reflexivity | reflexivity | discriminate].
Defined.

(** X8: [expand_uri] raises [TypeError] on a type name that is not a
    string and only [ValueError] on a string; it never raises [KeyError]. *)
Theorem expand_uri_raises (rx : Factory) (type_name : value) (e : exn) :
  expand_uri rx type_name = Raise e ->
  match type_name with VStr _ => e = ValueError | _ => e = TypeError end.
Proof.
  unfold expand_uri. destruct type_name as [| |s| | |]; try (now intros [= <-]).
  destruct (match_scheme s); [discriminate|].
  destruct (match_shorthand s) as [[prefix suffix]|]; [|now intros [= <-]].
  destruct (prefix_registry rx !! prefix); [discriminate | now intros [= <-]].
Qed.

Lemma expand_uri_raises_witness : ValueError = ValueError.
Proof.
  apply (expand_uri_raises new_Factory (VStr "/foo/str") ValueError).
  vm_compute. reflexivity.
Defined.

(** ** The factory and its registries *)

Lemma core_registry_lookup (u : string) (e : type_entry) :
  core_registry !! u = Some e <-> exists k, u = uri k /\ e = TypeClass k.
Proof.
  split.
  - unfold core_registry, core_types. simpl foldr.
    rewrite !lookup_insert_Some, lookup_empty.
    intros H. repeat (destruct H as [[<- <-] | [_ H]]; [eauto|]). discriminate.
  - intros (k & -> & ->). destruct k; vm_compute; reflexivity.
Qed.

Lemma new_Factory_registry : type_registry new_Factory = core_registry.
Proof. vm_compute. reflexivity. Qed.

(** X9: [Factory()] registers every core type under its URI, and nothing
    else; each core type is reached by the name [//] followed by its
    subname, and registering one of them again raises [ValueError].  On a
    factory made without the core types no schema compiles. *)
Theorem Factory_init_registers :
  snd (Factory_init true) = Return tt
  /\ (forall (u : string) (e : type_entry),
        type_registry new_Factory !! u = Some e
        <-> exists k, u = uri k /\ e = TypeClass k)
  /\ (forall k, resolves new_Factory ("//" +:+ subname k) k)
  /\ (forall k, register_type new_Factory k = (new_Factory, Raise ValueError))
  /\ (forall fuel schema v, make_schema fuel bare_Factory schema <> Return v).
Proof.
  split; [vm_compute; reflexivity|]. split; [|split; [|split]].
  - intros u e. rewrite new_Factory_registry. apply core_registry_lookup.
  - intros k. destruct k; eexists; split; vm_compute; reflexivity.
  - intros k. unfold register_type.
    assert (type_registry new_Factory !! uri k = Some (TypeClass k)) as ->.
    { rewrite new_Factory_registry. apply core_registry_lookup. eauto. }
    reflexivity.
  - intros fuel schema v H. destruct fuel as [|fuel]; [discriminate|].
    rewrite make_schema_unfold in H.
    destruct (as_dict schema) as [d|]; [|discriminate].
    apply bind_Return in H as (tn & _ & H).
    apply bind_Return in H as (u & _ & H).
    change (type_registry bare_Factory) with (∅ : gmap string type_entry) in H.
    rewrite lookup_empty in H. discriminate.
Qed.

(** X10: after [register_type(t)], whether it succeeded or not, the URI of
    [t] is registered and registering [t] again raises [ValueError] and
    changes nothing.  On a factory where the URI is free, [register_type]
    returns, binds the URI to the class and leaves every other entry and
    the prefixes as they were. *)
Theorem register_type_once (rx : Factory) (k : kind) :
  register_type (fst (register_type rx k)) k
  = (fst (register_type rx k), Raise ValueError)
  /\ (type_registry rx !! uri k = None ->
      snd (register_type rx k) = Return tt
      /\ type_registry (fst (register_type rx k)) !! uri k = Some (TypeClass k)
      /\ (forall u, u <> uri k ->
            type_registry (fst (register_type rx k)) !! u
            = type_registry rx !! u)
      /\ prefix_registry (fst (register_type rx k)) = prefix_registry rx).
Proof.
  unfold register_type. split.
  - destruct (type_registry rx !! uri k) as [e|] eqn:He; simpl.
    + now rewrite He.
    + now rewrite lookup_insert_eq.
  - intros ->. simpl. split; [reflexivity|]. split; [apply lookup_insert_eq|].
    split; [|reflexivity]. intros u Hu. now apply lookup_insert_ne.
Qed.

Lemma register_type_once_witness :
  snd (register_type bare_Factory KInt) = Return tt
  /\ type_registry (fst (register_type bare_Factory KInt)) !! uri KInt
     = Some (TypeClass KInt)
  /\ (forall u, u <> uri KInt ->
        type_registry (fst (register_type bare_Factory KInt)) !! u
        = type_registry bare_Factory !! u)
  /\ prefix_registry (fst (register_type bare_Factory KInt))
     = prefix_registry bare_Factory.
Proof.
  apply (proj2 (register_type_once bare_Factory KInt)). reflexivity.
Defined.

(** X11: [learn_type] on a URI that is registered, as a core type or as a
    learned one, raises [SchemaError] and changes nothing; so after a
    [learn_type] that returned, a second one for the same URI raises and
    the first schema stays. *)
Theorem learn_type_once :
  (forall (n : nat) (rx : Factory) (uri : string) (schema : value)
          (e : type_entry),
      type_registry rx !! uri = Some e ->
      learn_type n rx uri schema = (rx, Raise SchemaError))
  /\ (forall (n m : nat) (rx : Factory) (uri : string) (s1 s2 : value),
        snd (learn_type n rx uri s1) = Return tt ->
        learn_type m (fst (learn_type n rx uri s1)) uri s2
        = (fst (learn_type n rx uri s1), Raise SchemaError)
        /\ type_registry (fst (learn_type n rx uri s1)) !! uri
           = Some (Learned s1)).
Proof.
  split.
  - intros n rx u schema e He. unfold learn_type. now rewrite He.
  - intros n m rx u s1 s2.
    destruct (learn_type n rx u s1) as [rx' o] eqn:Hl. simpl. intros ->.
    unfold learn_type in Hl.
    destruct (type_registry rx !! u) as [e|] eqn:He; [discriminate|].
    destruct (make_schema n rx s1) as [v|e|]; try discriminate.
    injection Hl as <-. unfold learn_type. simpl.
    rewrite lookup_insert_eq. split; reflexivity.
Qed.

Lemma learn_type_once_witness :
  learn_type 1 (fst (learn_type 1 new_Factory positive_uri positive_int))
    positive_uri (VStr "//str")
  = (fst (learn_type 1 new_Factory positive_uri positive_int), Raise SchemaError)
  /\ type_registry (fst (learn_type 1 new_Factory positive_uri positive_int))
       !! positive_uri = Some (Learned positive_int).
Proof.
  apply (proj2 learn_type_once 1 1 new_Factory positive_uri positive_int).
  vm_compute. reflexivity.
Defined.

(** X12: after an [add_prefix] that returned, the shorthand names with the
    prefix expand to the new base; the other prefixes and the types are as
    before. *)
Theorem add_prefix_expands (rx : Factory) (name base suffix : string) :
  all_chars is_name name = true -> all_chars is_name suffix = true ->
  suffix <> EmptyString ->
  snd (add_prefix rx name base) = Return tt ->
  expand_uri (fst (add_prefix rx name base)) (VStr (shorthand name suffix))
  = Return (base +:+ suffix)
  /\ (forall p, p <> name ->
        prefix_registry (fst (add_prefix rx name base)) !! p
        = prefix_registry rx !! p)
  /\ type_registry (fst (add_prefix rx name base)) = type_registry rx.
Proof.
  intros Hname Hsuffix Hne Hret.
  rewrite <- (append_nil_r suffix) at 1.
  rewrite (expand_uri_expansion _ name suffix EmptyString Hname Hsuffix Hne)
    by auto.
  unfold expansion. unfold add_prefix in *.
  destruct (prefix_registry rx !! name) as [b|];
    [destruct (negb (String.eqb b "")); [discriminate|]|];
    simpl; rewrite lookup_insert_eq;
    (split; [reflexivity|]); (split; [|reflexivity]);
    intros p Hp; now apply lookup_insert_ne.
Qed.

Lemma add_prefix_expands_witness :
  expand_uri (fst (add_prefix new_Factory "my" "tag:example.com,2024:"))
    (VStr (shorthand "my" "thing"))
  = Return ("tag:example.com,2024:" +:+ "thing")
  /\ (forall p, p <> "my" ->
        prefix_registry (fst (add_prefix new_Factory "my" "tag:example.com,2024:"))
          !! p
        = prefix_registry new_Factory !! p)
  /\ type_registry (fst (add_prefix new_Factory "my" "tag:example.com,2024:"))
     = type_registry new_Factory.
Proof.
  apply add_prefix_expands;
    [reflexivity | reflexivity | discriminate | vm_compute; reflexivity].
Defined.

(** X13: [add_prefix] on a prefix registered with a non-empty base raises
    [SchemaError] and changes nothing: neither of the two seeded prefixes
    can be registered again. *)
Theorem add_prefix_duplicate :
  (forall (rx : Factory) (name base b : string),
      prefix_registry rx !! name = Some b -> b <> EmptyString ->
      add_prefix rx name base = (rx, Raise SchemaError))
  /\ (forall base, add_prefix new_Factory "" base
                   = (new_Factory, Raise SchemaError))
  /\ (forall base, add_prefix new_Factory ".meta" base
                   = (new_Factory, Raise SchemaError)).
Proof.
  split; [|split].
  - intros rx name base b Hb Hne. now apply (add_prefix_registered rx name base b).
  - intros base. reflexivity.
  - intros base. reflexivity.
Qed.

Lemma add_prefix_duplicate_witness :
  add_prefix new_Factory "" "tag:example.com,2024:"
  = (new_Factory, Raise SchemaError).
Proof.
  apply (proj1 add_prefix_duplicate new_Factory "" _ core_base);
    [vm_compute; reflexivity | discriminate].
Defined.

(** ** Compiling in a larger registry *)

Lemma keeps_refl {A} (o : outcome A) : keeps o o.
Proof. now intros a. Qed.

Lemma keeps_bind {A B} (c c' : outcome A) (k k' : A -> outcome B) :
  keeps c c' -> (forall a, keeps (k a) (k' a)) ->
  keeps (bind c k) (bind c' k').
Proof.
  intros Hc Hk b H. apply bind_Return in H as (a & Ha & H).
  rewrite (Hc a Ha). simpl. now apply Hk.
Qed.

Ltac keeps_step :=
  match goal with
  | |- keeps ?o ?o => apply keeps_refl
  | |- keeps (bind _ _) (bind _ _) => apply keeps_bind; [|intros ?]
  | |- keeps (if ?c then _ else _) (if ?c then _ else _) => destruct c
  | |- keeps (match ?x with _ => _ end) (match ?x with _ => _ end) =>
      destruct x
  end.

Section Keeps.
Variables mk mk' : value -> outcome validator.
Hypothesis Hmk : forall s, keeps (mk s) (mk' s).

Lemma py_map_keeps (l : list value) : keeps (py_map mk l) (py_map mk' l).
Proof.
  induction l as [|x l IH]; simpl; [apply keeps_refl|].
  apply keeps_bind; [apply Hmk | intros y].
  apply keeps_bind; [apply IH | intros ys]. apply keeps_refl.
Qed.

Lemma make_each_keeps (v : value) : keeps (make_each mk v) (make_each mk' v).
Proof.
  unfold make_each. apply keeps_bind; [apply keeps_refl | intros l].
  apply py_map_keeps.
Qed.

Lemma rec_fields_keeps table fields known which :
  keeps (rec_fields mk table fields known which)
        (rec_fields mk' table fields known which).
Proof.
  revert known which. induction fields as [|f fields IH]; intros known which;
    simpl; [apply keeps_refl|].
  destruct (bool_decide (f ∈ known)); [apply keeps_refl|].
  apply keeps_bind; [apply keeps_refl | intros d].
  apply keeps_bind; [apply Hmk | intros s]. apply IH.
Qed.

Lemma rec_table_keeps schema which known :
  keeps (rec_table mk schema which known) (rec_table mk' schema which known).
Proof.
  unfold rec_table. destruct (dict_get schema which) as [[]|];
    try apply keeps_refl. apply rec_fields_keeps.
Qed.

Lemma construct_keeps (k : kind) (schema : list (string * value)) :
  keeps (construct mk k schema) (construct mk' k schema).
Proof.
  destruct k; simpl;
    unfold AllType_init, AnyType_init, ArrType_init, IntType_init,
      MapType_init, NumType_init, RecType_init, SeqType_init, StrType_init;
    repeat first
      [ apply Hmk | apply make_each_keeps | apply rec_table_keeps
      | keeps_step ].
Qed.
End Keeps.

Lemma expand_uri_extends (rx rx' : Factory) (type_name : value) :
  extends rx rx' -> keeps (expand_uri rx type_name) (expand_uri rx' type_name).
Proof.
  intros [Hp _] u. unfold expand_uri.
  destruct type_name as [| |s| | |]; try discriminate.
  destruct (match_scheme s); [auto|].
  destruct (match_shorthand s) as [[prefix suffix]|]; [|discriminate].
  destruct (prefix_registry rx !! prefix) as [base|] eqn:Hb; [|discriminate].
  now rewrite (lookup_weaken _ _ _ _ Hb Hp).
Qed.

Lemma make_schema_extends (rx rx' : Factory) (n : nat) (schema : value) :
  extends rx rx' -> keeps (make_schema n rx schema) (make_schema n rx' schema).
Proof.
  intros Hext. revert schema. induction n as [|n IH]; intros schema;
    [discriminate|].
  rewrite !make_schema_unfold.
  destruct (as_dict schema) as [d|]; [|apply keeps_refl].
  apply keeps_bind; [apply keeps_refl | intros tn].
  apply keeps_bind; [now apply expand_uri_extends | intros u].
  destruct (type_registry rx !! u) as [e|] eqn:He; [|discriminate].
  rewrite (lookup_weaken _ _ _ _ He (proj2 Hext)).
  destruct e as [k|learned].
  - now apply construct_keeps.
  - apply keeps_bind; [apply keeps_refl | intros _]. apply IH.
Qed.

Lemma learn_type_extends (n : nat) (rx : Factory) (uri : string)
    (schema : value) :
  extends rx (fst (learn_type n rx uri schema)).
Proof.
  unfold learn_type, extends.
  destruct (type_registry rx !! uri) as [e|] eqn:He; [done|].
  destruct (make_schema n rx schema); simpl; [|done|done].
  split; [done|]. now apply insert_subseteq.
Qed.

Lemma register_type_extends (rx : Factory) (k : kind) :
  extends rx (fst (register_type rx k)).
Proof.
  unfold register_type, extends.
  destruct (type_registry rx !! uri k) as [e|] eqn:He; simpl; [done|].
  split; [done|]. now apply insert_subseteq.
Qed.

Lemma add_prefix_extends (rx : Factory) (name base : string) :
  prefix_registry rx !! name = None ->
  extends rx (fst (add_prefix rx name base)).
Proof.
  intros Hn. unfold add_prefix, extends. rewrite Hn. simpl.
  split; [|done]. now apply insert_subseteq.
Qed.

(** X14: a schema that compiles keeps compiling, to the same validator, in
    every factory that has the same prefixes and types and more: after any
    [learn_type], after any [register_type], and after an [add_prefix] of a
    name that was not registered. *)
Theorem make_schema_after_registration
    (rx : Factory) (n : nat) (schema : value) (v : validator) :
  make_schema n rx schema = Return v ->
  (forall rx', extends rx rx' -> make_schema n rx' schema = Return v)
  /\ (forall m uri learned,
        make_schema n (fst (learn_type m rx uri learned)) schema = Return v)
  /\ (forall k, make_schema n (fst (register_type rx k)) schema = Return v)
  /\ (forall name base,
        prefix_registry rx !! name = None ->
        make_schema n (fst (add_prefix rx name base)) schema = Return v).
Proof.
  intros Hv. split; [|split; [|split]].
  - intros rx' Hext. now apply (make_schema_extends rx rx' n schema Hext).
  - intros m u learned.
    now apply (make_schema_extends _ _ n schema (learn_type_extends m rx u learned)).
  - intros k.
    now apply (make_schema_extends _ _ n schema (register_type_extends rx k)).
  - intros name base Hn.
    now apply (make_schema_extends _ _ n schema (add_prefix_extends rx name base Hn)).
Qed.

Lemma make_schema_after_registration_witness :
  make_schema 1 (fst (learn_type 1 new_Factory positive_uri positive_int))
    (VStr "//str")
  = Return (StrType None None).
Proof.
  apply (proj1 (proj2 (make_schema_after_registration new_Factory 1
                         (VStr "//str") (StrType None None)
                         ltac:(vm_compute; reflexivity)))).
Defined.

(** X15: after a [learn_type] that returned, every type name that expands
    to the learned URI compiles to the validator the schema compiled to;
    a learned URI with a scheme is such a name itself. *)
Theorem learned_type_alias (n : nat) (rx : Factory) (uri : string)
    (schema : value) :
  snd (learn_type n rx uri schema) = Return tt ->
  exists v, make_schema n rx schema = Return v
    /\ (forall name,
          expand_uri (fst (learn_type n rx uri schema)) (VStr name) = Return uri ->
          make_schema (S n) (fst (learn_type n rx uri schema)) (VStr name)
          = Return v
          /\ make_schema (S n) (fst (learn_type n rx uri schema)) (doc name [])
             = Return v).
Proof.
  intros Hret.
  pose proof (learn_type_extends n rx uri schema) as Hext.
  assert (type_registry (fst (learn_type n rx uri schema)) !! uri
          = Some (Learned schema)) as Hl.
  { unfold learn_type in *.
    destruct (type_registry rx !! uri) as [e|]; [discriminate|].
    destruct (make_schema n rx schema); try discriminate.
    apply lookup_insert_eq. }
  unfold learn_type in Hret.
  destruct (type_registry rx !! uri) as [e|]; [discriminate|].
  destruct (make_schema n rx schema) as [v|e|] eqn:Hv; try discriminate.
  exists v. split; [reflexivity|].
  intros name Hname.
  apply (make_schema_extends _ _ n schema Hext) in Hv.
  assert (make_schema (S n) (fst (learn_type n rx uri schema)) (doc name [])
          = Return v) as H.
  { rewrite make_schema_unfold. unfold doc. simpl as_dict.
    unfold dict_item. simpl dict_get. simpl bind at 1.
    rewrite Hname. simpl bind at 1. rewrite Hl. exact Hv. }
  split; [|exact H]. now rewrite make_schema_name.
Qed.

Lemma learned_type_alias_witness :
  exists v, make_schema 1 new_Factory positive_int = Return v
    /\ (forall name,
          expand_uri (fst (learn_type 1 new_Factory positive_uri positive_int))
            (VStr name) = Return positive_uri ->
          make_schema 2 (fst (learn_type 1 new_Factory positive_uri positive_int))
            (VStr name) = Return v
          /\ make_schema 2
               (fst (learn_type 1 new_Factory positive_uri positive_int))
               (doc name []) = Return v).
Proof.
  apply (learned_type_alias 1 new_Factory positive_uri positive_int).
  vm_compute. reflexivity.
Defined.

(** ** What [make_schema] and the constructors reject *)

(** X16: [make_schema] raises [SchemaError] on a schema that is neither a
    string nor a dictionary, [KeyError] on a dictionary without [type],
    [TypeError] when the type is not a string, [SchemaError] when the name
    expands to a URI that is not registered, and [SchemaError] when a
    learned type is given any parameter. *)
Theorem make_schema_rejects (fuel : nat) (rx : Factory) :
  (forall schema, as_dict schema = None ->
     make_schema (S fuel) rx schema = Raise SchemaError)
  /\ (forall d, dict_get d "type" = None ->
        make_schema (S fuel) rx (VDict d) = Raise KeyError)
  /\ (forall d type_name,
        dict_get d "type" = Some type_name ->
        match type_name with VStr _ => False | _ => True end ->
        make_schema (S fuel) rx (VDict d) = Raise TypeError)
  /\ (forall d type_name u,
        dict_get d "type" = Some type_name ->
        expand_uri rx type_name = Return u ->
        type_registry rx !! u = None ->
        make_schema (S fuel) rx (VDict d) = Raise SchemaError)
  /\ (forall d type_name u learned,
        dict_get d "type" = Some type_name ->
        expand_uri rx type_name = Return u ->
        type_registry rx !! u = Some (Learned learned) ->
        keys_within ["type"] d = false ->
        make_schema (S fuel) rx (VDict d) = Raise SchemaError).
Proof.
  repeat split.
  - intros schema H. rewrite make_schema_unfold. now rewrite H.
  - intros d H. rewrite make_schema_unfold. simpl. unfold dict_item.
    now rewrite H.
  - intros d tn H Htn. rewrite make_schema_unfold. simpl. unfold dict_item.
    rewrite H. simpl. now destruct tn.
  - intros d tn u H Hu Hreg. rewrite make_schema_unfold. simpl.
    unfold dict_item. rewrite H. simpl. rewrite Hu. simpl. now rewrite Hreg.
  - intros d tn u learned H Hu Hreg Hk. rewrite make_schema_unfold. simpl.
    unfold dict_item. rewrite H. simpl. rewrite Hu. simpl. rewrite Hreg.
    now rewrite Hk.
Qed.

Lemma make_schema_rejects_witness :
  make_schema 2 (fst (learn_type 1 new_Factory positive_uri positive_int))
    (VDict [("type", VStr positive_uri); ("value", VInt 3)])
  = Raise SchemaError.
Proof.
  apply (proj2 (proj2 (proj2 (proj2
           (make_schema_rejects 1
              (fst (learn_type 1 new_Factory positive_uri positive_int))))))
           _ (VStr positive_uri) positive_uri positive_int);
    vm_compute; reflexivity.
Defined.

(** X17: every constructor raises [SchemaError] on a schema with a key that
    is not among the parameters of its type; so does [make_schema] on a
    schema whose type name resolves to that class. *)
Theorem unknown_parameter_rejected :
  (forall (mk : value -> outcome validator) (k : kind)
          (schema : list (string * value)),
      keys_within (parameters k) schema = false ->
      construct mk k schema = Raise SchemaError)
  /\ (forall (fuel : nat) (rx : Factory) (type_name : string) (k : kind)
             (params : list (string * value)),
        resolves rx type_name k ->
        keys_within (parameters k) (("type", VStr type_name) :: params) = false ->
        make_schema (S fuel) rx (doc type_name params) = Raise SchemaError).
Proof.
  assert (forall mk k schema, keys_within (parameters k) schema = false ->
            construct mk k schema = Raise SchemaError) as H.
  { intros mk k schema Hk. destruct k; simpl in *;
      unfold AllType_init, AnyType_init, ArrType_init, IntType_init,
        MapType_init, NumType_init, RecType_init, SeqType_init, StrType_init,
        CoreType_init;
      now rewrite Hk. }
  split; [exact H|].
  intros fuel rx tn k params Hres Hk.
  rewrite (make_schema_class _ _ _ _ _ Hres). now apply H.
Qed.

Lemma unknown_parameter_rejected_witness :
  make_schema 1 new_Factory (doc "//int" [("min", VInt 0)]) = Raise SchemaError.
Proof.
  apply (proj2 unknown_parameter_rejected 0 new_Factory "//int" KInt).
  - apply (resolves_core KInt).
  - reflexivity.
Defined.

(** X18: the constructors of [all], [arr], [map] and [seq] raise
    [SchemaError] when their parameter [of], [contents], [values] or
    [contents] is absent or is a false value (an empty list, an empty
    string, [None], zero); [any] raises it when [of] is present and
    false. *)
Theorem required_parameter_missing :
  (forall (mk : value -> outcome validator) (k : kind) (p : string)
          (schema : list (string * value)),
      required_parameter k = Some p ->
      py_truthy (get schema p) = false ->
      construct mk k schema = Raise SchemaError)
  /\ (forall (mk : value -> outcome validator) (schema : list (string * value))
             (alternatives : value),
        dict_get schema "of" = Some alternatives ->
        py_truthy alternatives = false ->
        construct mk KAny schema = Raise SchemaError).
Proof.
  split.
  - intros mk k p schema Hp Hfalse.
    destruct k; try discriminate; injection Hp as <-; simpl;
      unfold AllType_init, ArrType_init, MapType_init, SeqType_init;
      rewrite Hfalse; now destruct (keys_within _ schema).
  - intros mk schema alternatives Hof Hfalse. simpl. unfold AnyType_init.
    destruct (keys_within _ schema); [|reflexivity]. simpl.
    unfold dict_in, dict_item. rewrite Hof. simpl. now rewrite Hfalse.
Qed.

Lemma required_parameter_missing_witness :
  construct (make_schema 1 new_Factory) KAll
    [("type", VStr "//all"); ("of", VList [])]
  = Raise SchemaError.
Proof.
  apply (proj1 required_parameter_missing _ KAll "of"); reflexivity.
Defined.

(** *** The fields of a record *)

Lemma rec_fields_fresh mk table fields known which known' which' :
  rec_fields mk table fields known which = Return (known', which') ->
  (forall k : string, k ∈ dict_keys which -> k ∈ known) ->
  NoDup (dict_keys which) ->
  (forall k : string, k ∈ fields -> k ∉ known)
  /\ NoDup (dict_keys which')
  /\ (forall k : string, k ∈ dict_keys which' <-> k ∈ dict_keys which \/ k ∈ fields).
Proof.
  revert known which.
  induction fields as [|f fields IH]; intros known which H Hsub Hnd; simpl in H.
  - injection H as <- <-. split; [intros k Hk; inversion Hk|].
    split; [exact Hnd|]. intros k. rewrite elem_of_nil. tauto.
  - destruct (bool_decide (f ∈ known)) eqn:Hf; [discriminate|].
    apply bool_decide_eq_false in Hf.
    apply bind_Return in H as (d & _ & H).
    apply bind_Return in H as (s & _ & H).
    assert (f ∉ dict_keys which) as Hfw by (intros Hin; apply Hf, Hsub, Hin).
    rewrite (dict_set_fresh which f s Hfw) in H.
    assert (dict_keys (which ++ [(f, s)]) = dict_keys which ++ [f]) as Hkeys
      by (unfold dict_keys; now rewrite map_app).
    apply IH in H as (Hfresh & Hnd' & Hin).
    + split; [|split; [exact Hnd'|]].
      * intros k [->|Hk]%elem_of_cons; [exact Hf|].
        intros Hkn. apply (Hfresh k Hk). apply elem_of_union. now right.
      * intros k. rewrite Hin, Hkeys, elem_of_app, list_elem_of_singleton,
          elem_of_cons. tauto.
    + intros k. rewrite Hkeys, elem_of_app, list_elem_of_singleton,
        elem_of_union, elem_of_singleton. intros [Hk| ->]; [right; auto | now left].
    + rewrite Hkeys. apply NoDup_app. split; [exact Hnd|].
      split; [|apply NoDup_singleton].
      intros k Hk ->%list_elem_of_singleton. contradiction.
Qed.

Lemma rec_table_fresh mk schema which known known' table :
  rec_table mk schema which known = Return (known', table) ->
  NoDup (dict_keys table)
  /\ (forall k : string, k ∈ dict_keys table -> k ∉ known)
  /\ (forall fields, dict_get schema which = Some (VDict fields) ->
        forall k : string, k ∈ dict_keys fields <-> k ∈ dict_keys table).
Proof.
  unfold rec_table.
  destruct (dict_get schema which) as [[| | | | |fields]|]; try discriminate.
  - intros H.
    apply rec_fields_fresh in H as (Hfresh & Hnd & Hin);
      [|intros k Hk; inversion Hk | apply NoDup_nil_2].
    split; [exact Hnd|]. split.
    + intros k Hk. apply Hfresh. apply Hin in Hk as [Hk|Hk]; [inversion Hk | exact Hk].
    + intros fields' [= <-] k. rewrite Hin. simpl. rewrite elem_of_nil. tauto.
  - intros [= <- <-]. simpl. split; [apply NoDup_nil_2|].
    split; [intros k Hk; inversion Hk | discriminate].
Qed.

Lemma RecType_init_fields mk schema v :
  RecType_init mk schema = Return v -> fields_ok v.
Proof.
  unfold RecType_init. intros H.
  apply bind_Return in H as (u & _ & H).
  apply bind_Return in H as (rest & _ & H).
  apply bind_Return in H as ([known1 req] & Hreq & H).
  apply bind_Return in H as ([known2 opt] & Hopt & H).
  injection H as <-. simpl in *.
  pose proof (rec_table_known _ _ _ _ _ _ Hreq) as Hk1.
  apply rec_table_fresh in Hreq as (Hnd1 & _ & _).
  apply rec_table_fresh in Hopt as (Hnd2 & Hfresh & _).
  split; [exact Hnd1|]. split; [exact Hnd2|].
  intros k Hk1' Hk2. apply (Hfresh k Hk2). apply Hk1. now right.
Qed.

Lemma construct_fields_ok mk k schema v :
  construct mk k schema = Return v -> fields_ok v.
Proof.
  destruct k; simpl; try apply RecType_init_fields;
    unfold AllType_init, AnyType_init, ArrType_init, IntType_init,
      MapType_init, NumType_init, SeqType_init, StrType_init;
    intros H; inv_head H; exact I.
Qed.

Lemma make_schema_fields_ok fuel rx schema v :
  make_schema fuel rx schema = Return v -> fields_ok v.
Proof.
  revert schema. induction fuel as [|fuel IH]; intros schema H; [discriminate|].
  rewrite make_schema_unfold in H.
  destruct (as_dict schema) as [d|]; [|discriminate].
  apply bind_Return in H as (tn & _ & H).
  apply bind_Return in H as (u & _ & H).
  destruct (type_registry rx !! u) as [[k|learned]|]; [| |discriminate].
  - eapply construct_fields_ok; eauto.
  - apply bind_Return in H as (? & _ & H). eauto.
Qed.

(** X19: a [rec] schema that names a field both as required and as
    optional does not compile; in every [rec] validator that [make_schema]
    returns, the required and the optional fields are distinct names, no
    name is in both tables, and [known] is the set of all of them. *)
Theorem rec_fields_disjoint :
  (forall (mk : value -> outcome validator) (schema : list (string * value))
          (required optional : list (string * value)) (field : string)
          (v : validator),
      dict_get schema "required" = Some (VDict required) ->
      dict_get schema "optional" = Some (VDict optional) ->
      field ∈ dict_keys required -> field ∈ dict_keys optional ->
      construct mk KRec schema <> Return v)
  /\ (forall known rest required optional,
        compiled (RecType known rest required optional) ->
        NoDup (dict_keys required) /\ NoDup (dict_keys optional)
        /\ (forall k : string,
              k ∈ dict_keys required -> k ∈ dict_keys optional -> False)
        /\ (forall k : string,
              k ∈ known <-> k ∈ dict_keys required \/ k ∈ dict_keys optional)).
Proof.
  split.
  - intros mk schema required optional field v Hr Ho Hfr Hfo H.
    simpl in H. unfold RecType_init in H.
    apply bind_Return in H as (u & _ & H).
    apply bind_Return in H as (rest & _ & H).
    apply bind_Return in H as ([known1 req] & Hreq & H).
    apply bind_Return in H as ([known2 opt] & Hopt & H).
    simpl in *.
    pose proof (rec_table_known _ _ _ _ _ _ Hreq) as Hk1.
    apply rec_table_fresh in Hreq as (_ & _ & Hin1).
    apply rec_table_fresh in Hopt as (_ & Hfresh & Hin2).
    apply (Hfresh field).
    + now apply (Hin2 optional Ho).
    + apply Hk1. right. now apply (Hin1 required Hr).
  - intros known rest required optional Hc.
    pose proof (compiled_known_ok _ Hc) as Hk.
    destruct Hc as (fuel & rx & schema & Hc).
    apply make_schema_fields_ok in Hc as (H1 & H2 & H3). auto.
Qed.

Lemma rec_fields_disjoint_witness :
  construct (make_schema 1 new_Factory) KRec
    [("type", VStr "//rec"); ("required", VDict [("a", VStr "//int")]);
     ("optional", VDict [("a", VStr "//str")])]
  <> Return rec_closed_validator.
Proof.
  apply (proj1 rec_fields_disjoint _ _ [("a", VStr "//int")]
           [("a", VStr "//str")] "a");
    [reflexivity | reflexivity | apply list_elem_of_here | apply list_elem_of_here].
Defined.

(** ** The [check] methods *)

Lemma py_all_false {A} (f : A -> outcome bool) (l : list A) :
  py_all f l = Return false <-> first_hit f false l.
Proof.
  unfold first_hit. induction l as [|x l IH]; simpl.
  - split; [discriminate | intros (i & a & H & _); now destruct i].
  - rewrite bind_Return. split.
    + intros ([] & Hx & H).
      * apply IH in H as (i & a & Hi & Ha & Hbefore).
        exists (S i), a. split; [exact Hi|]. split; [exact Ha|].
        intros [|j] b Hj Hb; [now injection Hb as <- | apply (Hbefore j b); [lia | exact Hb]].
      * exists 0%nat, x. split; [reflexivity|]. split; [exact Hx|]. intros j b Hj. lia.
    + intros (i & a & Hi & Ha & Hbefore). destruct i as [|i].
      * injection Hi as ->. exists false. now split.
      * exists true. split; [apply (Hbefore 0%nat x); [lia | reflexivity]|].
        apply IH. exists i, a. split; [exact Hi|]. split; [exact Ha|].
        intros j b Hj Hb. apply (Hbefore (S j) b); [lia | exact Hb].
Qed.

Lemma py_any_true {A} (f : A -> outcome bool) (l : list A) :
  py_any f l = Return true <-> first_hit f true l.
Proof.
  unfold first_hit. induction l as [|x l IH]; simpl.
  - split; [discriminate | intros (i & a & H & _); now destruct i].
  - rewrite bind_Return. split.
    + intros ([] & Hx & H).
      * exists 0%nat, x. split; [reflexivity|]. split; [exact Hx|]. intros j b Hj. lia.
      * apply IH in H as (i & a & Hi & Ha & Hbefore).
        exists (S i), a. split; [exact Hi|]. split; [exact Ha|].
        intros [|j] b Hj Hb; [now injection Hb as <- | apply (Hbefore j b); [lia | exact Hb]].
    + intros (i & a & Hi & Ha & Hbefore). destruct i as [|i].
      * injection Hi as ->. exists true. now split.
      * exists false. split; [apply (Hbefore 0%nat x); [lia | reflexivity]|].
        apply IH. exists i, a. split; [exact Hi|]. split; [exact Ha|].
        intros j b Hj Hb. apply (Hbefore (S j) b); [lia | exact Hb].
Qed.

(** X20: [all] accepts a value exactly when every alternative accepts it,
    and rejects it exactly when some alternative rejects it after the ones
    before it accepted; [any] with alternatives accepts a value exactly
    when some alternative accepts it after the ones before it rejected (an
    alternative that raises before that makes the check raise). *)
Theorem all_any_check (alts : list validator) (x : value) :
  (check (AllType alts) x = Return true
   <-> Forall (fun s => check s x = Return true) alts)
  /\ (check (AllType alts) x = Return false
      <-> first_hit (fun s => check s x) false alts)
  /\ (check (AnyType (Some alts)) x = Return true
      <-> first_hit (fun s => check s x) true alts).
Proof.
  split; [apply AllType_check_true|]. split; simpl.
  - unfold AllType_check. now rewrite py_all_map, py_all_false.
  - unfold AnyType_check. simpl. now rewrite py_any_map, py_any_true.
Qed.

(** X21: [arr] accepts a value exactly when it is a list or a tuple whose
    length satisfies the length range, if there is one, and whose items all
    satisfy the contents schema; the empty list is accepted when its
    length is. *)
Theorem ArrType_check_spec (c : validator) (len : option Util.range_check)
    (x : value) :
  check (ArrType c len) x = Return true
  <-> exists items, (x = VList items \/ x = VTuple items)
        /\ (forall f, len = Some f ->
              Util.check_range f (NInt (Z.of_nat (length items))) = Return true)
        /\ Forall (fun item => check c item = Return true) items.
Proof.
  simpl. unfold ArrType_check.
  destruct x as [|n|s|items|items|d];
    try (split; [discriminate | intros (items & [[=]|[=]] & _)]);
    rewrite and_then_true, none_or_range_true, py_all_true; split;
    try (intros [H1 H2]; exists items; auto);
    intros (items' & [[= <-]|[= <-]] & H1 & H2); auto.
Qed.

(** X22: [map] accepts a value exactly when it is a dictionary all of whose
    values satisfy the values schema; the keys are not looked at. *)
Theorem MapType_check_spec (c : validator) (x : value) :
  check (MapType c) x = Return true
  <-> exists d, x = VDict d
        /\ forall k v, (k, v) ∈ d -> check c v = Return true.
Proof.
  simpl. unfold MapType_check.
  destruct x as [|n|s|items|items|d];
    try (split; [discriminate | intros (d & [=] & _)]).
  rewrite py_all_true, Forall_forall. unfold dict_values.
  rewrite map_is_fmap. split.
  - intros H. exists d. split; [reflexivity|]. intros k v Hin.
    apply H. apply list_elem_of_fmap. now exists (k, v).
  - intros (d' & [= <-] & H) v Hv.
    apply list_elem_of_fmap in Hv as ([k v'] & -> & Hin). eauto.
Qed.

(** X23: [str] accepts a value exactly when it is a string, equal to the
    fixed value if there is one, whose length satisfies the length range
    if there is one. *)
Theorem StrType_check_spec (val : option string)
    (len : option Util.range_check) (x : value) :
  check (StrType val len) x = Return true
  <-> exists s, x = VStr s
        /\ (forall v, val = Some v -> s = v)
        /\ (forall f, len = Some f ->
              Util.check_range f (NInt (Z.of_nat (String.length s)))
              = Return true).
Proof.
  simpl. unfold StrType_check.
  destruct x as [|n|s|items|items|d];
    try (split; [discriminate | intros (s & [=] & _)]).
  rewrite and_then_true, none_or_range_true. split.
  - intros [Hv Hl]. exists s. split; [reflexivity|]. split; [|exact Hl].
    intros v ->. injection Hv as Hv. now apply String.eqb_eq.
  - intros (s' & [= <-] & Hv & Hl). split; [|exact Hl].
    destruct val as [v|]; [|reflexivity].
    now rewrite (Hv v eq_refl), String.eqb_refl.
Qed.

(** X24: [num] accepts a value exactly when it is a number, not a boolean,
    that satisfies the range and equals the fixed value when these are
    given; whatever [int] accepts, [num] with the same parameters accepts.
    Without parameters [num] accepts every number that is not a boolean:
    infinities, NaN and complex numbers too. *)
Theorem NumType_check_spec (val : option number)
    (rng : option Util.range_check) :
  (forall x,
      check (NumType val rng) x = Return true
      <-> exists n, x = VNum n /\ is_bool n = false
            /\ (forall f, rng = Some f -> Util.check_range f n = Return true)
            /\ (forall v, val = Some v -> num_eq n v = true))
  /\ (forall x, check (IntType val rng) x = Return true ->
                check (NumType val rng) x = Return true)
  /\ (forall n, is_bool n = false ->
                check (NumType None None) (VNum n) = Return true).
Proof.
  assert (forall x,
      check (NumType val rng) x = Return true
      <-> exists n, x = VNum n /\ is_bool n = false
            /\ (forall f, rng = Some f -> Util.check_range f n = Return true)
            /\ (forall v, val = Some v -> num_eq n v = true)) as Hnum.
  { intros x. simpl. unfold NumType_check.
    destruct x as [|n|s|items|items|d];
      try (split; [discriminate | intros (n & [=] & _)]).
    rewrite !and_then_true, none_or_range_true. split.
    - intros [[Hb Hr] Hv]. exists n. split; [reflexivity|].
      split; [injection Hb as Hb; now destruct (is_bool n)|].
      split; [exact Hr|]. intros v ->. now injection Hv.
    - intros (n' & [= <-] & Hb & Hr & Hv). rewrite Hb. repeat split; [exact Hr|].
      destruct val as [v|]; [|reflexivity]. now rewrite (Hv v eq_refl). }
  split; [exact Hnum|]. split.
  - intros x H. apply Hnum. simpl in H. unfold IntType_check in H.
    destruct x as [|n| | | |]; try discriminate.
    rewrite !and_then_true, none_or_range_true in H.
    destruct H as [[[Hb _] Hr] Hv]. exists n. split; [reflexivity|].
    split; [injection Hb as Hb; now destruct (is_bool n)|].
    split; [exact Hr|]. intros v ->. now injection Hv.
  - intros n Hb. simpl. unfold NumType_check. now rewrite Hb.
Qed.

Lemma NumType_check_spec_witness :
  check (NumType None None) complex_j = Return true.
Proof.
  apply (proj2 (proj2 (NumType_check_spec None None))). reflexivity.
Defined.

(** *** The exceptions of [check] *)

Lemma check_outcome_and (a b : outcome bool) :
  check_outcome a -> check_outcome b -> check_outcome (a &&& b).
Proof. destruct a as [[]| |]; simpl; auto. Qed.

Lemma check_outcome_all {A} (f : A -> outcome bool) (l : list A) :
  (forall a, a ∈ l -> check_outcome (f a)) -> check_outcome (py_all f l).
Proof.
  induction l as [|a l IH]; intros H; simpl; [exact I|].
  pose proof (H a (list_elem_of_here _ _)) as Ha.
  destruct (f a) as [[]| |]; simpl in *; auto.
  apply IH. intros a' Ha'. apply H. now right.
Qed.

Lemma check_outcome_any {A} (f : A -> outcome bool) (l : list A) :
  (forall a, a ∈ l -> check_outcome (f a)) -> check_outcome (py_any f l).
Proof.
  induction l as [|a l IH]; intros H; simpl; [exact I|].
  pose proof (H a (list_elem_of_here _ _)) as Ha.
  destruct (f a) as [[]| |]; simpl in *; auto.
  apply IH. intros a' Ha'. apply H. now right.
Qed.

Lemma check_outcome_range (f : Util.range_check) (x : number) :
  check_outcome (Util.check_range f x).
Proof.
  assert (forall k default (op : pyfloat -> pyfloat -> bool),
            check_outcome (b <- Util.r_get f k default ;;
                           Util.compare (num_cmp op) b x)) as H.
  { intros k default op. unfold Util.r_get.
    destruct (Util.r f) as [| | | | |d]; simpl; auto.
    destruct (match dict_get d k with Some v => v | None => default end)
      as [|n| | | |]; simpl; auto.
    unfold num_cmp. destruct (to_real n), (to_real x); simpl; auto. }
  unfold Util.check_range, num_le, num_ge, num_lt, num_gt.
  repeat apply check_outcome_and; apply H.
Qed.

Lemma check_outcome_none_or_range (rng : option Util.range_check) (x : number) :
  check_outcome (none_or_range rng x).
Proof. destruct rng; simpl; [apply check_outcome_range | exact I]. Qed.

Lemma restrict_returns (d : list (string * value)) (ks : list string)
    (acc : list (string * value)) :
  (forall k, k ∈ ks -> k ∈ dict_keys d) ->
  exists rest, restrict d ks acc = Return rest.
Proof.
  intros Hks. revert acc.
  induction ks as [|k ks IH]; intros acc; [simpl; eauto|].
  assert (k ∈ dict_keys d) as Hk by (apply Hks; now left).
  apply dict_in_keys, dict_in_get in Hk as [x Hx].
  unfold restrict; fold restrict. unfold dict_item. rewrite Hx. simpl bind.
  apply IH. intros k' Hk'. apply Hks. now right.
Qed.

Lemma check_outcome_fields (absent : bool) (fields : list (string * validator))
    (d : list (string * value)) :
  Forall (fun p => forall x, check_outcome (check p.2 x)) fields ->
  check_outcome
    (py_all
       (fun field =>
          if negb (dict_in field d) then Return absent
          else s <- dict_item (bound_checks fields) field ;;
               x <- dict_item d field ;; s x)
       (dict_keys (bound_checks fields))).
Proof.
  intros IH. apply check_outcome_all. intros field Hin.
  unfold bound_checks in *. rewrite dict_keys_map in Hin.
  apply dict_in_keys, dict_in_get in Hin as [s Hs].
  unfold dict_in, dict_item. rewrite dict_get_map, Hs.
  destruct (dict_get d field) as [x|] eqn:Hx; simpl; [|exact I].
  apply dict_get_elem_of in Hs.
  rewrite Forall_forall in IH. apply (IH (field, s) Hs).
Qed.

(** X25: whatever the validator and the value, [check] raises none of
    [KeyError], [IndexError], [SchemaError] and [ValueError]: a field of a
    record is looked up only when the value has it, a position of a
    sequence only when the value is long enough, and nothing is compiled.
    What [check] can still raise comes from the operators of the numbers
    and from a range that is not a dictionary. *)
Theorem check_guarded (v : validator) (x : value) :
  check_outcome (check v x).
Proof.
  revert x.
  induction v as [alts IH|alts IH|c len IH| | | |val rng|c IH| |val rng|
                  |known rest required optional IHrest IHreq IHopt
                  |cs tail IHcs IHtail|val len] using validator_induction;
    intros x; simpl check.
  - unfold AllType_check. rewrite py_all_map. apply check_outcome_all.
    intros s Hs. rewrite Forall_forall in IH. now apply IH.
  - unfold AnyType_check. destruct alts as [l|]; simpl; [|exact I].
    rewrite py_any_map. apply check_outcome_any. intros s Hs.
    specialize (IH l eq_refl). rewrite Forall_forall in IH. now apply IH.
  - unfold ArrType_check.
    destruct x; simpl; auto;
      (apply check_outcome_and;
         [apply check_outcome_none_or_range
         | apply check_outcome_all; intros y _; apply IH]).
  - exact I.
  - exact I.
  - exact I.
  - unfold IntType_check. destruct x as [|n| | | |]; try exact I.
    repeat apply check_outcome_and; try exact I.
    + destruct n as [b|z|[q|s|]|re im]; simpl; auto.
    + apply check_outcome_none_or_range.
  - unfold MapType_check. destruct x; simpl; auto.
    apply check_outcome_all. intros y _. apply IH.
  - exact I.
  - unfold NumType_check. destruct x as [|n| | | |]; try exact I.
    repeat apply check_outcome_and; try exact I.
    apply check_outcome_none_or_range.
  - exact I.
  - unfold RecType_check. destruct x as [| | | | |d]; simpl; auto.
    fold (bound_checks required) (bound_checks optional).
    set (unknown := filter (fun k => k ∉ known) (dict_keys d)).
    assert (forall k, k ∈ unknown -> k ∈ dict_keys d) as Hunknown.
    { intros k Hk. now apply list_elem_of_filter in Hk as [_ Hk]. }
    pose proof (check_outcome_fields false required d IHreq) as Hreq.
    pose proof (check_outcome_fields true optional d IHopt) as Hopt.
    clearbody unknown.
    destruct (match unknown with [] => false | _ => true end
              && match option_map check rest with None => true | Some _ => false end)
      eqn:Hguard; [exact I|].
    destruct (py_all _ (dict_keys (bound_checks required))) as [[]| |];
      simpl in *; auto.
    destruct (py_all _ (dict_keys (bound_checks optional))) as [[]| |];
      simpl in *; auto.
    destruct unknown as [|k ks]; [exact I|].
    destruct (restrict_returns d (k :: ks) [] Hunknown) as [r ->]. simpl.
    destruct rest as [s|]; simpl in *; [|discriminate].
    pose proof (IHrest s eq_refl (VDict r)) as Hs.
    destruct (check s (VDict r)) as [[]| |]; simpl in *; auto.
  - unfold SeqType_check.
    assert (forall items, (length cs <= length items)%nat ->
              check_outcome
                (py_all (fun i => s <- index (map check cs) i ;;
                                  x <- index items i ;; s x)
                   (seq 0 (length (map check cs))))) as Hpos.
    { intros items Hlen. apply check_outcome_all. intros i Hi.
      rewrite length_map in Hi. apply elem_of_seq in Hi.
      destruct (lookup_lt_is_Some_2 cs i) as [s Hs]; [lia|].
      destruct (lookup_lt_is_Some_2 items i) as [y Hy]; [lia|].
      rewrite index_map_check, Hs. simpl. unfold index. rewrite Hy. simpl.
      rewrite Forall_forall in IHcs.
      apply list_elem_of_lookup_2 in Hs. now apply IHcs. }
    destruct x as [| | |items|items|]; simpl; auto;
      (destruct (Nat.ltb_spec (length items) (length (map check cs)))
         as [Hlt|Hge]; [exact I|]);
      rewrite length_map in Hge; specialize (Hpos items Hge);
      (destruct (py_all _ (seq 0 (length (map check cs)))) as [[]| |];
         simpl in *; auto);
      (destruct (length (map check cs) <? length items)%nat; [|exact I]);
      (destruct tail as [t|]; simpl; [|exact I]).
    + pose proof (IHtail t eq_refl (VList (drop (length (map check cs)) items))) as Ht.
      destruct (check t _) as [[]| |]; simpl in *; auto.
    + pose proof (IHtail t eq_refl (VTuple (drop (length (map check cs)) items))) as Ht.
      destruct (check t _) as [[]| |]; simpl in *; auto.
  - unfold StrType_check. destruct x as [| |s| | |]; try exact I.
    apply check_outcome_and; [exact I | apply check_outcome_none_or_range].
Qed.

(** [check_total] at an array of at most two integers and a list of
    numbers. *)
Lemma check_total_witness :
  exists b, check short_ints (VList [VInt 1; VFloat (7 # 2)]) = Return b.
Proof. apply check_total; reflexivity. Defined.

(** ** Termination of [make_schema] *)

Lemma halts_mono (rx : Factory) (n m : nat) (schema : value) :
  halts rx n schema -> (n <= m)%nat -> halts rx m schema.
Proof.
  unfold halts. intros Hn Hle Hm.
  destruct (make_schema_mono n m rx schema Hle) as [H|H]; congruence.
Qed.

Lemma make_schema_Return_mono (rx : Factory) (n m : nat) (schema : value)
    (v : validator) :
  make_schema n rx schema = Return v -> (n <= m)%nat ->
  make_schema m rx schema = Return v.
Proof.
  intros Hn Hle. pose proof (make_schema_mono n m rx schema Hle) as H.
  rewrite Hn in H. now apply refines_Return in H.
Qed.

Lemma bind_halts {A B} (c : outcome A) (k : A -> outcome B) :
  c <> Timeout -> (forall a, c = Return a -> k a <> Timeout) ->
  bind c k <> Timeout.
Proof. destruct c as [a| |]; simpl; auto; discriminate. Qed.

Lemma require_halts (c : bool) (e : exn) : require c e <> Timeout.
Proof. now destruct c. Qed.

Lemma dict_item_halts {V} (d : list (string * V)) (k : string) :
  dict_item d k <> Timeout.
Proof. unfold dict_item. now destruct (dict_get d k). Qed.

Lemma dict_item_values {V} (d : list (string * V)) (k : string) (x : V) :
  dict_item d k = Return x -> x ∈ dict_values d.
Proof.
  unfold dict_item. destruct (dict_get d k) as [y|] eqn:Hy; [|discriminate].
  intros [= <-]. apply dict_get_elem_of in Hy.
  unfold dict_values. rewrite map_is_fmap. apply list_elem_of_fmap.
  now exists (k, y).
Qed.

Lemma mod_one_halts (n : number) : mod_one n <> Timeout.
Proof. now destruct n as [b|z|[q|neg|]|re im]. Qed.

Lemma issuperset_halts names opt : Util.issuperset names opt <> Timeout.
Proof.
  unfold Util.issuperset. apply bind_halts; [now destruct opt|].
  intros l _. induction l as [|e l IH]; simpl; [discriminate|].
  apply bind_halts; [apply require_halts | intros _ _].
  now destruct (Util.in_names names e).
Qed.

Lemma issubset_halts names opt : Util.issubset names opt <> Timeout.
Proof.
  unfold Util.issubset. apply bind_halts; [now destruct opt|].
  intros l _. apply bind_halts; [apply require_halts | discriminate].
Qed.

Lemma make_range_check_halts (opt : value) : Util.make_range_check opt <> Timeout.
Proof.
  unfold Util.make_range_check.
  apply bind_halts; [apply issuperset_halts | intros ok _].
  apply bind_halts; [apply require_halts | intros _ _].
  apply bind_halts; [apply issubset_halts | intros b1 _].
  apply bind_halts; [apply require_halts | intros _ _].
  apply bind_halts; [apply issubset_halts | intros b2 _].
  apply bind_halts; [apply require_halts | intros _ _].
  apply bind_halts; [now destruct opt | discriminate].
Qed.

Section Halts.
Variable mk : value -> outcome validator.
Variable d : list (string * value).
Hypothesis Hstr : forall s, mk (VStr s) <> Timeout.
Hypothesis Hd : forall x, x ∈ dict_values d ->
  mk x <> Timeout /\ (forall c, c ∈ children x -> mk c <> Timeout).

Lemma py_map_halts (l : list value) :
  (forall x, x ∈ l -> mk x <> Timeout) -> py_map mk l <> Timeout.
Proof.
  induction l as [|x l IH]; intros H; simpl; [discriminate|].
  apply bind_halts; [apply H; now left | intros y _].
  apply bind_halts; [|discriminate].
  apply IH. intros x' Hx'. apply H. now right.
Qed.

Lemma make_each_halts (x : value) :
  x ∈ dict_values d -> make_each mk x <> Timeout.
Proof.
  intros Hx. unfold make_each. apply bind_halts; [now destruct x|].
  intros l Hl. apply py_map_halts. intros c Hc.
  destruct x as [| |s|items|items|t]; simpl in Hl; try discriminate;
    injection Hl as <-.
  - clear Hx. induction s as [|a s IH]; simpl in Hc; [inversion Hc|].
    apply elem_of_cons in Hc as [-> | Hc]; [apply Hstr | now apply IH].
  - now apply (proj2 (Hd _ Hx)).
  - now apply (proj2 (Hd _ Hx)).
  - rewrite map_is_fmap in Hc. apply list_elem_of_fmap in Hc as (k & -> & _).
    apply Hstr.
Qed.

Lemma item_halts (k : string) (x : value) :
  dict_item d k = Return x -> mk x <> Timeout.
Proof. intros H. apply dict_item_values in H. now apply (proj1 (Hd x H)). Qed.

Lemma item_each_halts (k : string) (x : value) :
  dict_item d k = Return x -> make_each mk x <> Timeout.
Proof. intros H. apply dict_item_values in H. now apply make_each_halts. Qed.

Lemma rec_fields_halts (table : list (string * value)) (fields : list string)
    (known : gset string) (which : list (string * validator)) :
  (forall c, c ∈ dict_values table -> mk c <> Timeout) ->
  rec_fields mk table fields known which <> Timeout.
Proof.
  intros Ht. revert known which.
  induction fields as [|f fields IH]; intros known which; simpl; [discriminate|].
  destruct (bool_decide (f ∈ known)); [discriminate|].
  apply bind_halts; [apply dict_item_halts | intros c Hc].
  apply bind_halts; [apply Ht; now apply dict_item_values in Hc | intros s _].
  apply IH.
Qed.

Lemma rec_table_halts (which : string) (known : gset string) :
  rec_table mk d which known <> Timeout.
Proof.
  unfold rec_table. destruct (dict_get d which) as [x|] eqn:Hx; [|discriminate].
  destruct x as [| | | | |table]; try discriminate.
  apply rec_fields_halts. intros c Hc.
  assert (VDict table ∈ dict_values d) as Hin.
  { apply (dict_item_values d which). unfold dict_item. now rewrite Hx. }
  now apply (proj2 (Hd _ Hin)).
Qed.

Ltac halts_step :=
  first
    [ discriminate
    | apply require_halts
    | apply dict_item_halts
    | apply make_range_check_halts
    | apply mod_one_halts
    | apply rec_table_halts
    | eapply item_halts; eassumption
    | eapply item_each_halts; eassumption
    | apply bind_halts; [|intros ? ?]
    | match goal with
      | |- (if ?c then _ else _) <> Timeout => destruct c
      | |- match ?x with _ => _ end <> Timeout => destruct x
      end ].

Lemma construct_halts (k : kind) : construct mk k d <> Timeout.
Proof.
  destruct k; simpl;
    unfold AllType_init, AnyType_init, ArrType_init, IntType_init,
      MapType_init, NumType_init, RecType_init, SeqType_init, StrType_init,
      CoreType_init;
    repeat halts_step.
Qed.
End Halts.

Lemma construct_name_halts (mk : value -> outcome validator) (k : kind)
    (type_name : value) :
  construct mk k [("type", type_name)] <> Timeout.
Proof.
  destruct k; simpl;
    unfold AllType_init, AnyType_init, ArrType_init, IntType_init,
      MapType_init, NumType_init, RecType_init, SeqType_init, StrType_init,
      CoreType_init; simpl; discriminate.
Qed.

(** In a factory whose learned schemas compile within [n] calls, a schema
    dictionary finishes as soon as its parts do. *)
Lemma make_schema_dict_halts (rx : Factory) (n m : nat)
    (d : list (string * value)) :
  (forall uri schema, type_registry rx !! uri = Some (Learned schema) ->
     exists v, make_schema n rx schema = Return v) ->
  (n <= m)%nat ->
  (forall k, construct (make_schema m rx) k d <> Timeout) ->
  halts rx (S m) (VDict d).
Proof.
  intros Hlearned Hle Hk. unfold halts. rewrite make_schema_unfold. simpl.
  apply bind_halts; [apply dict_item_halts | intros tn _].
  apply bind_halts.
  { unfold expand_uri. destruct tn as [| |s| | |]; try discriminate.
    destruct (match_scheme s); [discriminate|].
    destruct (match_shorthand s) as [[p q]|]; [|discriminate].
    now destruct (prefix_registry rx !! p). }
  intros u _. destruct (type_registry rx !! u) as [[k|schema]|] eqn:Hu;
    [apply Hk | | discriminate].
  apply bind_halts; [apply require_halts | intros _ _].
  destruct (Hlearned u schema Hu) as [v Hv].
  now rewrite (make_schema_Return_mono rx n m schema v Hv Hle).
Qed.

Lemma make_schema_name_halts (rx : Factory) (n m : nat) (s : string) :
  (forall uri schema, type_registry rx !! uri = Some (Learned schema) ->
     exists v, make_schema n rx schema = Return v) ->
  (n <= m)%nat -> halts rx (S m) (VStr s).
Proof.
  intros Hlearned Hle. unfold halts. rewrite make_schema_name.
  apply (make_schema_dict_halts rx n m _ Hlearned Hle).
  intros k. apply construct_name_halts.
Qed.

(** A bound that serves all the values of a list. *)
Lemma Forall_eventually {A} (Q : nat -> A -> Prop) (l : list A) :
  Forall (fun a => exists f, forall n, (f <= n)%nat -> Q n a) l ->
  exists f, forall n, (f <= n)%nat -> forall a, a ∈ l -> Q n a.
Proof.
  induction 1 as [|a l [fa Ha] _ [fl Hl]].
  - exists 0%nat. intros n _ a Ha. inversion Ha.
  - exists (Nat.max fa fl). intros n Hn a' [-> | Ha']%elem_of_cons.
    + apply Ha. lia.
    + apply Hl; [lia | exact Ha'].
Qed.

Lemma make_schema_halts (rx : Factory) (n : nat) :
  (forall uri schema, type_registry rx !! uri = Some (Learned schema) ->
     exists v, make_schema n rx schema = Return v) ->
  forall schema, exists f, forall m, (f <= m)%nat ->
    halts rx m schema /\ forall c, c ∈ children schema -> halts rx m c.
Proof.
  intros Hlearned schema.
  induction schema as [|x|s|l IH|l IH|d IH] using value_induction.
  - exists 1%nat. intros [|m] Hm; [lia|]. split; [discriminate|].
    intros c Hc. inversion Hc.
  - exists 1%nat. intros [|m] Hm; [lia|]. split; [discriminate|].
    intros c Hc. inversion Hc.
  - exists (S n). intros [|m] Hm; [lia|]. split.
    + apply (make_schema_name_halts rx n m s Hlearned). lia.
    + intros c Hc. inversion Hc.
  - assert (Forall (fun a => exists f, forall m, (f <= m)%nat -> halts rx m a) l)
      as H.
    { eapply Forall_impl; [exact IH|]. intros a [f Hf]. exists f.
      intros m Hm. exact (proj1 (Hf m Hm)). }
    apply Forall_eventually in H as [f Hf]. exists (S f).
    intros [|m] Hm; [lia|]. split; [discriminate|].
    intros c Hc. apply Hf; [lia | exact Hc].
  - assert (Forall (fun a => exists f, forall m, (f <= m)%nat -> halts rx m a) l)
      as H.
    { eapply Forall_impl; [exact IH|]. intros a [f Hf]. exists f.
      intros m Hm. exact (proj1 (Hf m Hm)). }
    apply Forall_eventually in H as [f Hf]. exists (S f).
    intros [|m] Hm; [lia|]. split; [discriminate|].
    intros c Hc. apply Hf; [lia | exact Hc].
  - assert (Forall
              (fun x => exists f, forall m, (f <= m)%nat ->
                 halts rx m x /\ forall c, c ∈ children x -> halts rx m c)
              (dict_values d)) as H.
    { unfold dict_values. rewrite map_is_fmap. apply Forall_fmap.
      eapply Forall_impl; [exact IH|]. intros [k x] Hx. exact Hx. }
    apply Forall_eventually in H as [f Hf].
    exists (S (Nat.max f (S n))). intros [|m] Hm; [lia|]. split.
    + apply (make_schema_dict_halts rx n m d Hlearned); [lia|].
      intros k. apply construct_halts.
      * intros s.
        destruct m as [|m]; [lia|].
        apply (make_schema_name_halts rx n m s Hlearned). lia.
      * intros x Hx. apply Hf; [lia | exact Hx].
    + intros c Hc. apply Hf; [lia | exact Hc].
Qed.

Lemma learned_compile_step (rx rx' : Factory) (m : nat) :
  extends rx rx' ->
  (forall uri schema,
     type_registry rx' !! uri = Some (Learned schema) ->
     type_registry rx !! uri = Some (Learned schema)
     \/ exists v, make_schema m rx schema = Return v) ->
  learned_compile rx -> learned_compile rx'.
Proof.
  intros Hext Hnew [n Hn]. exists (Nat.max n m). intros u schema Hu.
  destruct (Hnew u schema Hu) as [Hold | [v Hv]].
  - destruct (Hn u schema Hold) as [v Hv]. exists v.
    apply (make_schema_extends rx rx' _ schema Hext).
    apply (make_schema_Return_mono rx n); [exact Hv | lia].
  - exists v. apply (make_schema_extends rx rx' _ schema Hext).
    apply (make_schema_Return_mono rx m); [exact Hv | lia].
Qed.

(** X27: in a factory all of whose learned schemas compile, [make_schema]
    finishes on every schema.  The factories built by [Factory()],
    [learn_type], [register_type] and [add_prefix] of names not yet
    registered are such factories: no cycle of learned types comes out of
    these calls. *)
Theorem make_schema_terminates :
  (forall rx, learned_compile rx ->
     forall schema, exists f, forall n, (f <= n)%nat ->
       make_schema n rx schema <> Timeout)
  /\ learned_compile new_Factory
  /\ (forall rx n uri schema,
        learned_compile rx ->
        learned_compile (fst (learn_type n rx uri schema)))
  /\ (forall rx k,
        learned_compile rx -> learned_compile (fst (register_type rx k)))
  /\ (forall rx name base,
        learned_compile rx -> prefix_registry rx !! name = None ->
        learned_compile (fst (add_prefix rx name base))).
Proof.
  split; [|split; [|split; [|split]]].
  - intros rx [n Hn] schema.
    destruct (make_schema_halts rx n Hn schema) as [f Hf].
    exists f. intros m Hm. exact (proj1 (Hf m Hm)).
  - exists 0%nat. intros u schema Hu.
    rewrite new_Factory_registry in Hu.
    apply core_registry_lookup in Hu as (k & _ & [=]).
  - intros rx n u schema Hrx.
    apply (learned_compile_step rx _ n (learn_type_extends n rx u schema));
      [|exact Hrx].
    intros u' schema' Hu'. unfold learn_type in Hu'.
    destruct (type_registry rx !! u) as [e|] eqn:He; [now left|].
    destruct (make_schema n rx schema) as [v|e|] eqn:Hv; simpl in Hu';
      [|now left|now left].
    apply lookup_insert_Some in Hu' as [[<- [= <-]] | [_ Hu']];
      [right; eauto | now left].
  - intros rx k Hrx.
    apply (learned_compile_step rx _ 0 (register_type_extends rx k));
      [|exact Hrx].
    intros u schema Hu. left. unfold register_type in Hu.
    destruct (type_registry rx !! uri k) as [e|] eqn:He; [exact Hu|].
    simpl in Hu. apply lookup_insert_Some in Hu as [[_ [=]] | [_ Hu]]. exact Hu.
  - intros rx name base Hrx Hname.
    apply (learned_compile_step rx _ 0 (add_prefix_extends rx name base Hname));
      [|exact Hrx].
    intros u schema Hu. left. unfold add_prefix in Hu. now rewrite Hname in Hu.
Qed.

Lemma make_schema_terminates_witness :
  exists f, forall n, (f <= n)%nat ->
    make_schema n (fst (learn_type 1 new_Factory positive_uri positive_int))
      (doc "//arr" [("contents", VStr positive_uri)])
    <> Timeout.
Proof.
  apply (proj1 make_schema_terminates).
  apply (proj1 (proj2 (proj2 make_schema_terminates))).
  apply (proj1 (proj2 make_schema_terminates)).
Defined.

(** X28: a learned type whose schema is its own name makes [make_schema]
    call itself without end; [learn_type] cannot register one, since the
    name does not compile while the URI is free. *)
Theorem learned_type_cycle (rx : Factory) (name uri : string) :
  expand_uri rx (VStr name) = Return uri ->
  (type_registry rx !! uri = Some (Learned (VStr name)) ->
   forall n, make_schema n rx (VStr name) = Timeout)
  /\ (type_registry rx !! uri = None ->
      forall n, learn_type (S n) rx uri (VStr name) = (rx, Raise SchemaError)).
Proof.
  intros Hname. split.
  - intros Hu n. induction n as [|n IH]; [reflexivity|].
    rewrite make_schema_unfold. simpl. rewrite Hname. simpl. now rewrite Hu.
  - intros Hu n. unfold learn_type. rewrite Hu.
    rewrite make_schema_unfold. simpl. rewrite Hname. simpl. now rewrite Hu.
Qed.

Lemma learned_type_cycle_witness :
  learn_type 1 new_Factory positive_uri (VStr positive_uri)
  = (new_Factory, Raise SchemaError).
Proof.
  apply (proj2 (learned_type_cycle new_Factory positive_uri positive_uri
                  ltac:(vm_compute; reflexivity))).
  vm_compute. reflexivity.
Defined.

(** ** The attributes of compiled validators *)

Lemma make_range_check_r (opt : value) (f : Util.range_check) :
  Util.make_range_check opt = Return f ->
  Util.r f = opt /\ Util.make_range_check (Util.r f) = Return f.
Proof.
  intros H. assert (Util.r f = opt) as Hr.
  { unfold Util.make_range_check in H.
    do 6 (apply bind_Return in H as (? & _ & H)).
    apply bind_Return in H as (r0 & Hr0 & [= <-]). simpl.
    unfold Util.copy in Hr0. destruct opt; congruence. }
  split; [exact Hr | now rewrite Hr].
Qed.

Lemma require_true (c : bool) (e : exn) (u : unit) :
  require c e = Return u -> c = true.
Proof. now destruct c. Qed.

Lemma optional_range_ok (c : bool) (opt : outcome value)
    (rng : option Util.range_check) :
  (if c then
     o <- opt ;; f <- Util.make_range_check o ;; Return (Some f)
   else Return None) = Return rng ->
  range_ok rng.
Proof.
  destruct c.
  - intros H. apply bind_Return in H as (o & _ & H).
    apply bind_Return in H as (f & Hf & [= <-]).
    intros f' [= <-]. now apply (make_range_check_r o).
  - intros [= <-] f [=].
Qed.

Lemma make_each_nonempty mk (alternatives : value) (alts : list validator) :
  py_truthy alternatives = true ->
  make_each mk alternatives = Return alts -> alts <> [].
Proof.
  unfold make_each. intros Ht H. apply bind_Return in H as (l & Hl & H).
  assert (l <> []) as Hne.
  { destruct alternatives as [| |s|items|items|d]; simpl in *; try discriminate;
      injection Hl as <-.
    - destruct s; [discriminate | simpl; discriminate].
    - now destruct items.
    - now destruct items.
    - now destruct d. }
  destruct l as [|x l]; [congruence|]. simpl in H.
  apply bind_Return in H as (y & _ & H).
  apply bind_Return in H as (ys & _ & [= <-]). discriminate.
Qed.

Lemma construct_attributes_ok mk k schema v :
  construct mk k schema = Return v -> attributes_ok v.
Proof.
  destruct k; simpl; intros H.
  - unfold AllType_init in H.
    apply bind_Return in H as (? & _ & H).
    apply bind_Return in H as (? & Ht%require_true & H).
    apply bind_Return in H as (a & Ha & H).
    apply bind_Return in H as (alts & Halts & [= <-]). simpl.
    unfold get, dict_item in *.
    destruct (dict_get schema "of") as [o|]; [|discriminate].
    injection Ha as <-. now apply (make_each_nonempty mk o).
  - unfold AnyType_init in H.
    apply bind_Return in H as (? & _ & H).
    destruct (dict_in "of" schema); [|injection H as <-; discriminate].
    apply bind_Return in H as (a & _ & H).
    apply bind_Return in H as (? & Ht%require_true & H).
    apply bind_Return in H as (alts & Halts & [= <-]). simpl.
    intros [= ->]. now apply (make_each_nonempty mk a []).
  - unfold ArrType_init in H.
    do 4 (apply bind_Return in H as (? & _ & H)).
    apply bind_Return in H as (len & Hlen & [= <-]). simpl.
    now apply optional_range_ok in Hlen.
  - inv_head H. exact I.
  - inv_head H. exact I.
  - inv_head H. exact I.
  - unfold IntType_init in H.
    apply bind_Return in H as (? & _ & H).
    apply bind_Return in H as (val & Hval & H).
    apply bind_Return in H as (rng & Hrng & [= <-]). simpl. split.
    + intros n ->. destruct (dict_in "value" schema); [|discriminate].
      apply bind_Return in Hval as (fixed & _ & Hval).
      destruct fixed as [|n'| | | |]; try discriminate.
      apply bind_Return in Hval as (m & Hm & Hval).
      apply bind_Return in Hval as (? & Hz%require_true & [= <-]).
      apply mod_one_zero. eauto.
    + now apply optional_range_ok in Hrng.
  - unfold MapType_init in H. inv_head H. exact I.
  - inv_head H. exact I.
  - unfold NumType_init in H.
    do 2 (apply bind_Return in H as (? & _ & H)).
    apply bind_Return in H as (rng & Hrng & [= <-]). simpl.
    now apply optional_range_ok in Hrng.
  - inv_head H. exact I.
  - unfold RecType_init in H. inv_head H. exact I.
  - unfold SeqType_init in H.
    apply bind_Return in H as (? & _ & H).
    apply bind_Return in H as (? & Ht%require_true & H).
    apply bind_Return in H as (a & Ha & H).
    apply bind_Return in H as (cs & Hcs & H).
    apply bind_Return in H as (tail & _ & [= <-]). simpl.
    unfold get, dict_item in *.
    destruct (dict_get schema "contents") as [o|]; [|discriminate].
    injection Ha as <-. now apply (make_each_nonempty mk o).
  - unfold StrType_init in H.
    do 2 (apply bind_Return in H as (? & _ & H)).
    apply bind_Return in H as (len & Hlen & [= <-]). simpl.
    now apply optional_range_ok in Hlen.
Qed.

Lemma make_schema_attributes_ok fuel rx schema v :
  make_schema fuel rx schema = Return v -> attributes_ok v.
Proof.
  revert schema. induction fuel as [|fuel IH]; intros schema H; [discriminate|].
  rewrite make_schema_unfold in H.
  destruct (as_dict schema) as [d|]; [|discriminate].
  apply bind_Return in H as (tn & _ & H).
  apply bind_Return in H as (u & _ & H).
  destruct (type_registry rx !! u) as [[k|learned]|]; [| |discriminate].
  - eapply construct_attributes_ok; eauto.
  - apply bind_Return in H as (? & _ & H). eauto.
Qed.

(** X29: in every validator that [make_schema] returns, the fixed value of
    an [int] is an integral real number (a boolean counts), every range
    predicate of an [int], [num], [str] or [arr] closes over an argument
    that [make_range_check] accepts, and an [all], an [any] with [of] and a
    [seq] hold at least one sub-schema. *)
Theorem compiled_attributes (v : validator) :
  compiled v -> attributes_ok v.
Proof.
  intros (fuel & rx & schema & H). now apply make_schema_attributes_ok in H.
Qed.

Lemma compiled_attributes_witness : attributes_ok short_ints.
Proof.
  apply compiled_attributes.
  exists 2%nat, new_Factory,
    (doc "//arr" [("contents", VStr "//int");
                  ("length", VDict [("max", VInt 2)])]).
  vm_compute. reflexivity.
Defined.
